(** * Kernel-event pipeline of fibratus: processor chain, handle processor,
      handle-name resolver, process snapshotter and trace consumer.

    A shallow embedding of the Go sources
      - pkg/kstream/processors (chain and handle processor),
      - pkg/handle (deadlock-aware handle-name resolver),
      - pkg/ps (process snapshotter),
      - pkg/kstream (trace consumer),
    with the properties of their documented behaviour.

    Conventions.  Go's fixed-width integers are [Z] with the wrap-around
    written out; a Go map is a [gmap]; a Go pointer to a process record is a
    location [loc] into a store of records; a Go [error] is [option error];
    a function that changes package or receiver state takes the state and
    returns the new one.  The operating system and the collaborators that
    live outside these sources are the members of one class per component
    ([HandleDeps], [OS], [Deps]), over which every property is stated.

    The file has two parts: the embedding of the sources, with the
    definitions the properties are stated with and the concrete scenarios
    they are exercised on; then the properties. *)

From Stdlib Require Import ZArith List String Bool Lia.
From stdpp Require Import base option gmap strings list fin_maps.

Local Open Scope Z_scope.
Set Warnings "-register-all".

(** ** Fixed-width integers *)

(** Conversion to an unsigned integer of [w] bits ([uint8(x)], ...). *)
Definition to_uint (w : Z) (x : Z) : Z := x mod 2 ^ w.

(** Conversion to [int64], two's complement. *)
Definition to_int64 (x : Z) : Z := (x + 2 ^ 63) mod 2 ^ 64 - 2 ^ 63.

(** [expvar.Int]: an [int64] cell; [Add] is an atomic 64-bit addition. *)
Definition Int_Add (v delta : Z) : Z := to_int64 (v + delta).

(** ** Event parameters (package kparams) *)

Module kparams.

(** Modelled from the spec: the well-known parameter identifiers that the
    embedded code names; their declaration (package kparams) is outside the
    sources.  Only their being distinct matters. *)
Inductive Name :=
| ProcessID | ProcessParentID | ThreadID | ProcessName | Cmdline | Exe
| UserSID | SessionID | StartTime
| HandleID | HandleObject | HandleObjectName | HandleObjectTypeID
| HandleObjectTypeName
| ImageFilename | ImageSize | ImageCheckSum | ImageBase | ImageDefaultBase
| UstackBase | UstackLimit | KstackBase | KstackLimit
| IOPrio | BasePrio | PagePrio | StartAddr.

(** Modelled from the spec: the type tags of a parameter (the tagged union of
    section 3 of the design: integers of widths 8/16/32/64, hex-tagged
    integers, ANSI and UTF-16 strings, file paths, timestamps, SID bytes). *)
Inductive Type_ :=
| Uint8 | Uint16 | Uint32 | Uint64 | Hex | AnsiString | UnicodeString
| FilePath | Time | SID.

End kparams.

#[global] Instance kparams_Name_eq_dec : EqDecision kparams.Name.
Proof. solve_decision. Defined.

Definition kparams_Name_code (n : kparams.Name) : positive :=
  match n with
  | kparams.ProcessID => 1 | kparams.ProcessParentID => 2
  | kparams.ThreadID => 3 | kparams.ProcessName => 4
  | kparams.Cmdline => 5 | kparams.Exe => 6 | kparams.UserSID => 7
  | kparams.SessionID => 8 | kparams.StartTime => 9
  | kparams.HandleID => 10 | kparams.HandleObject => 11
  | kparams.HandleObjectName => 12 | kparams.HandleObjectTypeID => 13
  | kparams.HandleObjectTypeName => 14 | kparams.ImageFilename => 15
  | kparams.ImageSize => 16 | kparams.ImageCheckSum => 17
  | kparams.ImageBase => 18 | kparams.ImageDefaultBase => 19
  | kparams.UstackBase => 20 | kparams.UstackLimit => 21
  | kparams.KstackBase => 22 | kparams.KstackLimit => 23
  | kparams.IOPrio => 24 | kparams.BasePrio => 25
  | kparams.PagePrio => 26 | kparams.StartAddr => 27
  end%positive.

Definition kparams_Name_decode (p : positive) : option kparams.Name :=
  match p with
  | 1 => Some kparams.ProcessID | 2 => Some kparams.ProcessParentID
  | 3 => Some kparams.ThreadID | 4 => Some kparams.ProcessName
  | 5 => Some kparams.Cmdline | 6 => Some kparams.Exe
  | 7 => Some kparams.UserSID | 8 => Some kparams.SessionID
  | 9 => Some kparams.StartTime | 10 => Some kparams.HandleID
  | 11 => Some kparams.HandleObject | 12 => Some kparams.HandleObjectName
  | 13 => Some kparams.HandleObjectTypeID
  | 14 => Some kparams.HandleObjectTypeName
  | 15 => Some kparams.ImageFilename | 16 => Some kparams.ImageSize
  | 17 => Some kparams.ImageCheckSum | 18 => Some kparams.ImageBase
  | 19 => Some kparams.ImageDefaultBase | 20 => Some kparams.UstackBase
  | 21 => Some kparams.UstackLimit | 22 => Some kparams.KstackBase
  | 23 => Some kparams.KstackLimit | 24 => Some kparams.IOPrio
  | 25 => Some kparams.BasePrio | 26 => Some kparams.PagePrio
  | 27 => Some kparams.StartAddr
  | _ => None
  end%positive.

#[global] Program Instance kparams_Name_countable : Countable kparams.Name :=
  {| encode := kparams_Name_code; decode := kparams_Name_decode |}.
Next Obligation. by intros []. Qed.

(** The dynamic value of a parameter (Go's [interface{}] restricted to the
    types the embedded code asserts on). *)
Inductive Value :=
| VUint8 (v : Z) | VUint16 (v : Z) | VUint32 (v : Z) | VUint64 (v : Z)
| VHex (v : Z) | VString (s : string) | VTime (t : Z)
| VBytes (b : list Z).

Record Kparam := mkKparam { KpType : kparams.Type_; KpValue : Value }.

(** [Kparams] is a Go map from parameter name to parameter. *)
Abbreviation Kparams := (gmap kparams.Name Kparam).

(** ** Errors *)

(** The names processors give themselves ([Name() ProcessorType]); the
    sources show [Ps] and [Handle], the remaining members of the enumeration
    are declared outside them. *)
Inductive ProcessorType := Ps | Handle | OtherProcessor (id : Z).

(** Go [error] values.  [ErrCancelUpstreamKevent] is the sentinel of package
    errors; [ErrProcessorFailed] is the [fmt.Errorf] of the chain;
    [ErrMulti] is what [multierror.Wrap] builds. *)
Inductive error :=
| ErrCancelUpstreamKevent
| ErrKparamNotFound (name : kparams.Name)
| ErrKparamType (name : kparams.Name)
| Errno (code : Z)
| ErrNew (msg : string)
| Errorf (msg : string) (cause : error)
| ErrProcessorFailed (name : ProcessorType) (cause : error)
| ErrMulti (errs : list error).

(** Modelled from the spec: [kerrors.IsCancelUpstreamKevent] (package errors
    is outside the sources) recognises the cancel-upstream sentinel. *)
Definition IsCancelUpstreamKevent (err : error) : bool :=
  match err with ErrCancelUpstreamKevent => true | _ => false end.

(** Modelled from the spec: [multierror.Wrap] (package multierror is outside
    the sources) merges the collected errors into a single combined error;
    no errors give no error. *)
Definition multierror_Wrap (errs : list error) : option error :=
  match errs with [] => None | _ => Some (ErrMulti errs) end.

(** A fallible Go result [(T, error)]. *)
Inductive result (A : Type) := Ok (a : A) | Err (e : error).
Arguments Ok {A} a.
Arguments Err {A} e.

(** Modelled from the spec: the typed getters of [Kparams]; a missing
    parameter, or one whose value has another type, is an error. *)
Definition GetUint8 (name : kparams.Name) (kpars : Kparams) : result Z :=
  match kpars !! name with
  | None => Err (ErrKparamNotFound name)
  | Some (mkKparam _ (VUint8 v)) => Ok v
  | Some _ => Err (ErrKparamType name)
  end.

(** Modelled from the spec: see [GetUint8]. *)
Definition GetUint16 (name : kparams.Name) (kpars : Kparams) : result Z :=
  match kpars !! name with
  | None => Err (ErrKparamNotFound name)
  | Some (mkKparam _ (VUint16 v)) => Ok v
  | Some _ => Err (ErrKparamType name)
  end.

(** Modelled from the spec: see [GetUint8]. *)
Definition GetUint32 (name : kparams.Name) (kpars : Kparams) : result Z :=
  match kpars !! name with
  | None => Err (ErrKparamNotFound name)
  | Some (mkKparam _ (VUint32 v)) => Ok v
  | Some _ => Err (ErrKparamType name)
  end.

(** Modelled from the spec: see [GetUint8]. *)
Definition GetUint64 (name : kparams.Name) (kpars : Kparams) : result Z :=
  match kpars !! name with
  | None => Err (ErrKparamNotFound name)
  | Some (mkKparam _ (VUint64 v)) => Ok v
  | Some _ => Err (ErrKparamType name)
  end.

(** Modelled from the spec: see [GetUint8]. *)
Definition GetHex (name : kparams.Name) (kpars : Kparams) : result Z :=
  match kpars !! name with
  | None => Err (ErrKparamNotFound name)
  | Some (mkKparam _ (VHex v)) => Ok v
  | Some _ => Err (ErrKparamType name)
  end.

(** Modelled from the spec: see [GetUint8]. *)
Definition GetString (name : kparams.Name) (kpars : Kparams) : result string :=
  match kpars !! name with
  | None => Err (ErrKparamNotFound name)
  | Some (mkKparam _ (VString s)) => Ok s
  | Some _ => Err (ErrKparamType name)
  end.

(** Modelled from the spec: the process, parent and thread identifiers are
    32-bit parameters. *)
Definition GetPid (kpars : Kparams) : result Z := GetUint32 kparams.ProcessID kpars.

(** Modelled from the spec: see [GetPid]. *)
Definition GetPpid (kpars : Kparams) : result Z :=
  GetUint32 kparams.ProcessParentID kpars.

(** Modelled from the spec: see [GetPid]. *)
Definition GetTid (kpars : Kparams) : result Z := GetUint32 kparams.ThreadID kpars.

(** Go's [v, _ = f()]: the error is dropped and the zero value kept. *)
Definition or_zero {A} (zero : A) (r : result A) : A :=
  match r with Ok a => a | Err _ => zero end.

(** Modelled from the spec: [Append] stores the parameter under its name (a
    map assignment: an existing parameter of that name is replaced). *)
Definition Kparams_Append (name : kparams.Name) (typ : kparams.Type_)
    (value : Value) (kpars : Kparams) : Kparams :=
  <[name := mkKparam typ value]> kpars.

(** Modelled from the spec: [Remove] deletes the parameter. *)
Definition Kparams_Remove (name : kparams.Name) (kpars : Kparams) : Kparams :=
  delete name kpars.

(** Modelled from the spec: [SetValue] overwrites the value of a parameter
    that exists and fails on a missing one. *)
Definition Kparams_SetValue (name : kparams.Name) (value : Value)
    (kpars : Kparams) : result Kparams :=
  match kpars !! name with
  | None => Err (ErrKparamNotFound name)
  | Some kpar => Ok (<[name := mkKparam (KpType kpar) value]> kpars)
  end.

(** ** Events (package kevent) *)

Module ktypes.

(** Modelled from the spec: the closed set of event types; the types that the
    embedded code does not name are [Other]. *)
Inductive Ktype :=
| CreateProcess | TerminateProcess | ProcessRundown
| CreateThread | TerminateThread | ThreadRundown
| OpenProcess | OpenThread
| LoadImage | UnloadImage | ImageRundown
| CreateHandle | CloseHandle
| Other (id : Z).

(** Modelled from the spec: the category tag of an event; the embedded code
    names only the handle category. *)
Inductive Category := Handle | OtherCategory (id : Z).

End ktypes.

#[global] Instance Ktype_eq_dec : EqDecision ktypes.Ktype.
Proof. solve_decision. Defined.

#[global] Instance Category_eq_dec : EqDecision ktypes.Category.
Proof. solve_decision. Defined.

(** A pointer to a process record ([*pstypes.PS]). *)
Definition loc := positive.

(** [kevent.Kevent], the fields the embedded code touches. *)
Record Kevent := mkKevent {
  Seq : Z;                       (* uint64 *)
  Timestamp : Z;
  Category : ktypes.Category;
  Typ : ktypes.Ktype;            (* the Go field is named Type *)
  PID : Z;                       (* uint32 *)
  Tid : Z;                       (* uint32 *)
  PS : option loc;               (* *pstypes.PS, nil = None *)
  Kparams_ : Kparams
}.

Definition set_Kparams (kpars : Kparams) (e : Kevent) : Kevent :=
  mkKevent (Seq e) (Timestamp e) (Category e) (Typ e) (PID e) (Tid e) (PS e) kpars.

Definition set_PS (ps : option loc) (e : Kevent) : Kevent :=
  mkKevent (Seq e) (Timestamp e) (Category e) (Typ e) (PID e) (Tid e) ps
    (Kparams_ e).

Definition set_Seq (seq : Z) (e : Kevent) : Kevent :=
  mkKevent seq (Timestamp e) (Category e) (Typ e) (PID e) (Tid e) (PS e)
    (Kparams_ e).

(** Modelled from the spec: the classification flags derivable from the
    type. *)
Definition IsCreateProcess (e : Kevent) : bool :=
  bool_decide (Typ e = ktypes.CreateProcess).

(** ** The processor chain (package processors) *)

Module processors.

Section chain.
Context {W : Type}.

(** What one call of [Processor.ProcessEvent] gives back.  The processor
    receives a pointer to the event and may change the event in place:
    [o_kevt] is the event it was handed, as it left it; [o_output], [o_next]
    and [o_err] are the three values it returns.  A processor that returns the
    pointer it was given has [o_output = o_kevt]. *)
Record Outcome := mkOutcome {
  o_kevt : Kevent;
  o_output : Kevent;
  o_next : bool;
  o_err : option error
}.

(** The [Processor] interface; [W] is the state its implementations keep
    (snapshotters, pending tables, the operating system). [Close] returns
    nothing in Go. *)
Record Processor := mkProcessor {
  Name : ProcessorType;
  ProcessEvent : Kevent -> W -> Outcome * W;
  Close : W -> W
}.

Record chain := mkChain { chain_processors : list Processor }.

(** The state a walk of the chain runs in: the processors' state and the
    [kevent.processor.failures] counter. *)
Record Env := mkEnv { world : W; processorFailures : Z }.

(** [addProcessor]: a nil processor is ignored, any other is appended. *)
Definition addProcessor (processor : option Processor) (c : chain) : chain :=
  match processor with
  | None => c
  | Some p => mkChain (chain_processors c ++ [p])
  end.

(** The statements after the loop of [chain.ProcessEvent]. *)
Definition after_walk (output : option Kevent) (errs : list error)
    (s : Env) : option Kevent * option error * Env :=
  if (0 <? length errs)%nat then (output, multierror_Wrap errs, s)
  else (output, None, s).

(** The loop of [chain.ProcessEvent] over the processors still to run.  Every
    processor is handed the same pointer [kevt]; [output] is what the last
    processor that ran returned (nil before the first). *)
Fixpoint walk (ps : list Processor) (kevt : Kevent) (output : option Kevent)
    (errs : list error) (s : Env) : option Kevent * option error * Env :=
  match ps with
  | [] => after_walk output errs s
  | processor :: rest =>
    let '(o, w) := ProcessEvent processor kevt (world s) in
    match o_err o with
    | Some e =>
      if negb (IsCancelUpstreamKevent e) then
        walk rest (o_kevt o) (Some (o_output o))
          (errs ++ [ErrProcessorFailed (Name processor) e])
          (mkEnv w (Int_Add (processorFailures s) 1))
      else (Some (o_output o), Some e, mkEnv w (processorFailures s))
    | None =>
      if negb (o_next o) then
        after_walk (Some (o_output o)) errs (mkEnv w (processorFailures s))
      else
        walk rest (o_kevt o) (Some (o_output o)) errs
          (mkEnv w (processorFailures s))
    end
  end.

(** [chain.ProcessEvent]. *)
Definition chain_ProcessEvent (c : chain) (kevt : Kevent) (s : Env)
    : option Kevent * option error * Env :=
  walk (chain_processors c) kevt None [] s.

(** The loop of [chain.Close]: the calls of [processor.Close()] it makes, in
    the order it makes them, and the state they leave. *)
Fixpoint Close_loop (ps : list Processor) (w : W) : list ProcessorType * W :=
  match ps with
  | [] => ([], w)
  | processor :: rest =>
    let w1 := Close processor w in
    let '(calls, w2) := Close_loop rest w1 in
    (Name processor :: calls, w2)
  end.

(** [chain.Close]: the calls made, the state left, and the returned error. *)
Definition chain_Close (c : chain) (w : W)
    : list ProcessorType * W * option error :=
  let '(calls, w') := Close_loop (chain_processors c) w in
  (calls, w', None).

(** Running every processor of a list one after the other, whatever each
    returns: the outcomes in order, the event and the state at the end.
    Used to state what a walk does on a prefix of the chain. *)
Fixpoint run_all (ps : list Processor) (kevt : Kevent) (w : W)
    : list (ProcessorType * Outcome) * Kevent * W :=
  match ps with
  | [] => ([], kevt, w)
  | processor :: rest =>
    let '(o, w1) := ProcessEvent processor kevt w in
    let '(os, kevt2, w2) := run_all rest (o_kevt o) w1 in
    ((Name processor, o) :: os, kevt2, w2)
  end.

(** An outcome after which the walk goes on to the next processor: a
    non-cancel error, or no error with [next] set. *)
Definition continues (o : Outcome) : bool :=
  match o_err o with
  | Some e => negb (IsCancelUpstreamKevent e)
  | None => o_next o
  end.

(** The errors of a list of outcomes, each as the chain reports it. *)
Definition collected (os : list (ProcessorType * Outcome)) : list error :=
  omap (fun '(name, o) =>
          match o_err o with
          | Some e => Some (ErrProcessorFailed name e)
          | None => None
          end) os.

(** The output of the last outcome of a list, nil for none. *)
Definition last_output (os : list (ProcessorType * Outcome)) : option Kevent :=
  match last os with Some (_, o) => Some (o_output o) | None => None end.

End chain.

(** *** The handle processor (handle_windows.go) *)

(** Modelled from the spec: the object type names of package handle that the
    processor switches on (registry-key, file and driver objects). *)
Definition handle_Key : string := "Key".
(** Modelled from the spec: see [handle_Key]. *)
Definition handle_File : string := "File".
(** Modelled from the spec: see [handle_Key]. *)
Definition handle_Driver : string := "Driver".

(** A loaded driver as [driver.EnumDevices] reports it. *)
Record Driver := mkDriver { Filename : string }.

(** The collaborators of the handle processor, all outside the sources: the
    object-type store, the handle snapshotter, the device mapper, the
    operating system ([handle.Duplicate], [handle.QueryType], the close of
    the duplicate, [driver.EnumDevices]), [key.Format] (None is
    [key.Invalid], otherwise the root key's [String()]), Go's
    [filepath.Base] and [strings.EqualFold], and the event's
    [GetParamAsString].  [X] is the state they keep between calls. *)
Class HandleDeps (X : Type) := {
  typeStore_FindByID : Z -> X -> string;
  typeStore_RegisterType : Z -> string -> X -> X;
  handle_Duplicate : Z -> Z -> X -> result Z * X;
  handle_QueryType : Z -> X -> result string * X;
  dup_Close : Z -> X -> X;
  key_Format : string -> option string * string;
  devMapper_Convert : string -> X -> string;
  driver_EnumDevices : X -> list Driver * X;
  filepath_Base : string -> string;
  strings_EqualFold : string -> string -> bool;
  hsnap_Write : Kevent -> X -> option error * X;
  hsnap_Remove : Kevent -> X -> option error * X;
  GetParamAsString : kparams.Name -> Kevent -> string
}.

(** Go's [strings.TrimPrefix]. *)
Definition strings_TrimPrefix (s prefix : string) : string :=
  if String.prefix prefix s
  then String.substring (String.length prefix)
         (String.length s - String.length prefix) s
  else s.

Section handle.
Context {X : Type} `{!HandleDeps X}.

(** [handleProcessor]: the collaborators' state, the table [objects] of
    CreateHandle events waiting for their CloseHandle, keyed by object
    pointer, and the [handle.deferred.matches] counter.  The table holds
    pointers to events; an event enters it in the call that returns the
    cancel-upstream sentinel, after which nothing else holds the pointer, so
    the table is modelled as holding the events themselves. *)
Record handleProcessor := mkHandleProcessor {
  ext : X;
  objects : gmap Z Kevent;
  handleDeferMatches : Z
}.

Definition set_ext (x : X) (h : handleProcessor) : handleProcessor :=
  mkHandleProcessor x (objects h) (handleDeferMatches h).

(** What the first part of [processEvent] (lines 75-136) hands to the
    second: the event as changed so far, the type name, the formatted
    object name, the object pointer and the duplicate whose [Close] is
    deferred (if one was made). *)
Record Resolved := mkResolved {
  r_kevt : Kevent;
  r_typeName : string;
  r_name : string;
  r_object : Z;
  r_dup : option Z
}.

(** Lines 87-101: the type name from the store, or from the operating system
    through a duplicate of the handle. *)
Definition resolveType (e : Kevent) (handleID typeID : Z) (x : X)
    : result (string * option Z) * X :=
  let typeName := typeStore_FindByID (to_uint 8 typeID) x in
  if String.eqb typeName "" then
    match handle_Duplicate handleID (PID e) x with
    | (Err err, x1) => (Err err, x1)
    | (Ok dup, x1) =>
      match handle_QueryType dup x1 with
      | (Err err, x2) => (Err err, dup_Close dup x2)
      | (Ok typeName, x2) =>
        (Ok (typeName, Some dup),
         typeStore_RegisterType (to_uint 8 typeID) typeName x2)
      end
    end
  else (Ok (typeName, None), x).

(** Lines 125-131: every loaded driver whose file's base name is the driver
    name, whatever the case, gives the event an ImageFilename parameter. *)
Definition appendDrivers (driverName : string) (drivers : list Driver)
    (kpars : Kparams) : Kparams :=
  fold_left
    (fun kpars drv =>
       if strings_EqualFold (filepath_Base (Filename drv)) driverName
       then Kparams_Append kparams.ImageFilename kparams.FilePath
              (VString (Filename drv)) kpars
       else kpars)
    drivers kpars.

(** Lines 112-132: the object name according to the type. *)
Definition formatName (typeName name : string) (kpars : Kparams) (x : X)
    : string * Kparams * X :=
  if String.eqb typeName handle_Key then
    match key_Format name with
    | (None, _) => (name, kpars, x)
    | (Some rootKey, keyName) =>
      (if String.eqb keyName "" then rootKey
       else String.append rootKey (String.append "\" keyName), kpars, x)
    end
  else if String.eqb typeName handle_File then
    (devMapper_Convert name x, kpars, x)
  else if String.eqb typeName handle_Driver then
    let driverName :=
      String.append (strings_TrimPrefix name "\Driver\") ".sys" in
    let '(drivers, x1) := driver_EnumDevices x in
    (name, appendDrivers driverName drivers kpars, x1)
  else (name, kpars, x).

(** Lines 75-136 of [processEvent].  On an error the event is returned as
    changed so far, with the error; a duplicate made before the error is
    closed by its deferred [Close]. *)
Definition resolve (e : Kevent) (x : X) : (Kevent * error + Resolved) * X :=
  match GetUint32 kparams.HandleID (Kparams_ e) with
  | Err err => (inl (e, err), x)
  | Ok handleID =>
  match GetUint16 kparams.HandleObjectTypeID (Kparams_ e) with
  | Err err => (inl (e, err), x)
  | Ok typeID =>
  match GetUint64 kparams.HandleObject (Kparams_ e) with
  | Err err => (inl (e, err), x)
  | Ok object =>
  match resolveType e handleID typeID x with
  | (Err err, x1) => (inl (e, err), x1)
  | (Ok (typeName, dup), x1) =>
    let close x := match dup with Some d => dup_Close d x | None => x end in
    let kpars1 :=
      Kparams_Remove kparams.HandleObjectTypeID
        (Kparams_Append kparams.HandleObjectTypeName kparams.AnsiString
           (VString typeName) (Kparams_ e)) in
    match GetString kparams.HandleObjectName kpars1 with
    | Err err => (inl (set_Kparams kpars1 e, err), close x1)
    | Ok name =>
      let '(name, kpars2, x2) := formatName typeName name kpars1 x1 in
      match Kparams_SetValue kparams.HandleObjectName (VString name) kpars2 with
      | Err err => (inl (set_Kparams kpars2 e, err), close x2)
      | Ok kpars3 =>
        (inr (mkResolved (set_Kparams kpars3 e) typeName name object dup), x2)
      end
    end
  end end end end.

(** Lines 138-176 of [processEvent]: the input event as it is left, the
    returned event, the returned error, and the processor afterwards. *)
Definition pair (r : Resolved) (h : handleProcessor)
    : Kevent * Kevent * option error * handleProcessor :=
  let e := r_kevt r in
  if bool_decide (Typ e = ktypes.CreateHandle) then
    if String.eqb (r_name r) "" then
      (e, e, Some ErrCancelUpstreamKevent,
       mkHandleProcessor (ext h) (<[r_object r := e]> (objects h))
         (handleDeferMatches h))
    else
      let '(err, x1) := hsnap_Write e (ext h) in
      (e, e, err, set_ext x1 h)
  else
    match objects h !! r_object r with
    | Some evt =>
      let objects1 := delete (r_object r) (objects h) in
      match Kparams_SetValue kparams.HandleObjectName (VString (r_name r))
              (Kparams_ evt) with
      | Err err =>
        (e, e, Some err, mkHandleProcessor (ext h) objects1 (handleDeferMatches h))
      | Ok kpars =>
        let matches := Int_Add (handleDeferMatches h) 1 in
        let kpars1 :=
          if String.eqb (r_typeName r) handle_Driver then
            Kparams_Append kparams.ImageFilename kparams.FilePath
              (VString (GetParamAsString kparams.ImageFilename e)) kpars
          else kpars in
        let evt1 := set_Kparams kpars1 evt in
        let '(err, x1) := hsnap_Write evt1 (ext h) in
        match err with
        | Some _ =>
          match hsnap_Remove e x1 with
          | (Some err, x2) => (e, e, Some err, mkHandleProcessor x2 objects1 matches)
          | (None, x2) =>
            let '(err, x3) := hsnap_Remove e x2 in
            (e, evt1, err, mkHandleProcessor x3 objects1 matches)
          end
        | None =>
          let '(err, x2) := hsnap_Remove e x1 in
          (e, evt1, err, mkHandleProcessor x2 objects1 matches)
        end
      end
    | None =>
      let '(err, x1) := hsnap_Remove e (ext h) in
      (e, e, err, set_ext x1 h)
    end.

(** [handleProcessor.processEvent]; the deferred close of the duplicate runs
    when the function returns. *)
Definition processEvent (e : Kevent) (h : handleProcessor)
    : Kevent * Kevent * option error * handleProcessor :=
  match resolve e (ext h) with
  | (inl (e1, err), x1) => (e1, e1, Some err, set_ext x1 h)
  | (inr r, x1) =>
    let '(e1, out, err, h1) := pair r (set_ext x1 h) in
    (e1, out, err,
     match r_dup r with
     | Some dup => set_ext (dup_Close dup (ext h1)) h1
     | None => h1
     end)
  end.

(** [handleProcessor.ProcessEvent]. *)
Definition handle_ProcessEvent (e : Kevent) (h : handleProcessor)
    : Outcome * handleProcessor :=
  if bool_decide (Category e = ktypes.Handle) then
    let '(e1, out, err, h1) := processEvent e h in
    (mkOutcome e1 out false err, h1)
  else (mkOutcome e e true None, h).

End handle.

Arguments handleProcessor : clear implicits.
Arguments Processor : clear implicits.
Arguments chain : clear implicits.
Arguments Env : clear implicits.

End processors.

(** ** The deadlock-aware handle-name resolver (package handle) *)

Module handle.

(** The Windows calls the resolver makes. *)
Inductive Call :=
| ResetEvent (h : Z)
| SetEvent (h : Z)
| CreateThread
| GetLastError
| WaitForSingleObject (h : Z) (waitMilliseconds : Z)
| TerminateThread (h : Z) (exitCode : Z)
| CloseHandle (h : Z).

(** What a call returns: a value (a handle, a wait status; 0 where the call
    has none) and an error. *)
Record Ret := mkRet { ret_val : Z; ret_err : option error }.

(** The operating system together with the worker thread, as the resolver
    sees them: [os] answers a call and moves on; [objectNameInCallback] is
    the package variable of that name, which only the worker writes, read
    from the state the worker has left. *)
Class OS (X : Type) := {
  os : Call -> X -> Ret * X;
  objectNameInCallback : X -> string
}.

(** [windows.WAIT_OBJECT_0]. *)
Definition WAIT_OBJECT_0 : Z := 0.

Section resolver.
Context {X : Type} `{!OS X}.

(** The package variables [thread], [rawHandle], [ini], [done] and the
    [handle.wait.timeouts] counter, the operating system, and the calls made
    so far, oldest first. *)
Record State := mkState {
  thread : Z;
  rawHandle : option Z;
  ini : Z;
  done : Z;
  waitTimeoutCounts : Z;
  sys : X;
  calls : list Call
}.

Definition set_thread (t : Z) (st : State) : State :=
  mkState t (rawHandle st) (ini st) (done st) (waitTimeoutCounts st) (sys st)
    (calls st).

Definition set_rawHandle (h : Z) (st : State) : State :=
  mkState (thread st) (Some h) (ini st) (done st) (waitTimeoutCounts st)
    (sys st) (calls st).

Definition add_timeout (st : State) : State :=
  mkState (thread st) (rawHandle st) (ini st) (done st)
    (Int_Add (waitTimeoutCounts st) 1) (sys st) (calls st).

(** Making a call: the operating system answers and the call is recorded. *)
Definition call (c : Call) (st : State) : Ret * State :=
  let '(r, x) := os c (sys st) in
  (r, mkState (thread st) (rawHandle st) (ini st) (done st)
        (waitTimeoutCounts st) x (calls st ++ [c])).

Definition is_WAIT_TIMEOUT (err : option error) : bool :=
  match err with
  | Some (Errno code) => code =? 258
  | _ => false
  end.

(** Lines 56-71 of [GetHandleWithTimeout]: the worker is created when the
    thread slot is empty, the handle is stored and the worker is signalled.
    [inl] is an early return. *)
Definition signal (handle : Z) (st : State)
    : (string * option error + unit) * State :=
  let spawned : (string * option error + unit) * State :=
    if thread st =? 0 then
      let '(r1, st1) := call (ResetEvent (ini st)) st in
      match ret_err r1 with
      | Some err =>
        (inl (""%string, Some (Errorf "couldn't reset init event: %v" err)), st1)
      | None =>
        let '(r2, st2) := call (ResetEvent (done st1)) st1 in
        match ret_err r2 with
        | Some err =>
          (inl (""%string, Some (Errorf "couldn't reset done event: %v" err)), st2)
        | None =>
          let '(r3, st3) := call CreateThread st2 in
          let st4 := set_thread (ret_val r3) st3 in
          if thread st4 =? 0 then
            let '(r5, st5) := call GetLastError st4 in
            (inl (""%string,
                  Some (Errorf "cannot create handle query thread: %v"
                          (default (Errno 0) (ret_err r5)))), st5)
          else (inr (), st4)
        end
      end
    else (inr (), st) in
  match spawned with
  | (inl early, st1) => (inl early, st1)
  | (inr _, st1) =>
    let st2 := set_rawHandle handle st1 in
    let '(r, st3) := call (SetEvent (ini st2)) st2 in
    match ret_err r with
    | Some err => (inl (""%string, Some err), st3)
    | None => (inr (), st3)
    end
  end.

(** Lines 72-89 of [GetHandleWithTimeout]: the wait for the worker and what
    follows it. *)
Definition await (timeout : Z) (st : State) : string * option error * State :=
  let '(r, st1) := call (WaitForSingleObject (done st) timeout) st in
  if ret_val r =? WAIT_OBJECT_0 then
    (objectNameInCallback (sys st1), None, st1)
  else if is_WAIT_TIMEOUT (ret_err r) then
    let st2 := add_timeout st1 in
    let '(r3, st3) := call (TerminateThread (thread st2) 0) st2 in
    match ret_err r3 with
    | Some err =>
      (""%string, Some (Errorf "unable to terminate timeout thread: %v" err), st3)
    | None =>
      let '(r4, st4) := call (WaitForSingleObject (thread st3) timeout) st3 in
      match ret_err r4 with
      | Some err =>
        (""%string,
         Some (Errorf "failed awaiting timeout thread termination: %v" err), st4)
      | None =>
        let '(_, st5) := call (CloseHandle (thread st4)) st4 in
        (""%string,
         Some (ErrNew "couldn't resolve handle name due to timeout"),
         set_thread 0 st5)
      end
    end
  else (""%string, None, st1).

(** [GetHandleWithTimeout]. *)
Definition GetHandleWithTimeout (handle timeout : Z) (st : State)
    : string * option error * State :=
  match signal handle st with
  | (inl (name, err), st1) => (name, err, st1)
  | (inr _, st1) => await timeout st1
  end.

End resolver.

Arguments State : clear implicits.

End handle.

(** ** Process records (package ps/types) *)

Module pstypes.

(** Modelled from the spec: a thread of a process (section 3 of the
    design). *)
Record Thread := mkThread {
  Tid : Z;
  UstackBase : Z;
  UstackLimit : Z;
  KstackBase : Z;
  KstackLimit : Z;
  IOPrio : Z;
  BasePrio : Z;
  PagePrio : Z;
  Entrypoint : Z
}.

(** Modelled from the spec: a module loaded by a process. *)
Record Module_ := mkModule {
  Size : Z;
  Checksum : Z;
  ModuleName : string;
  BaseAddress : Z;
  DefaultBaseAddress : Z
}.

(** Modelled from the spec: an open handle of a process. *)
Record Handle := mkHandle {
  Num : Z;
  ObjectTypeID : Z;
  ObjectTypeName : string;
  ObjectName : string;
  OwnerPid : Z
}.

(** Parsed PE metadata; this code only stores it. *)
Inductive PEFile := PEData (id : Z).

(** Modelled from the spec: the process record.  [Parent] is a pointer to
    another record, nil when [None]. *)
Record PS := mkPS {
  PID : Z;
  Ppid : Z;
  Name : string;
  Cmdline : string;
  Exe : string;
  SID : string;
  SessionID : Z;
  PE : option PEFile;
  Cwd : string;
  Envs : gmap string string;
  Parent : option loc;
  Threads : list Thread;
  Modules : list Module_;
  Handles : list Handle
}.

(** Modelled from the spec: [NewProc] makes a record from the identifiers,
    the image name, the command line, the executable path, the SID and the
    session id; everything else is empty. *)
Definition NewProc (pid ppid : Z) (name cmdline exe sid : string)
    (sessionID : Z) : PS :=
  mkPS pid ppid name cmdline exe sid sessionID None "" ∅ None [] [] [].

(** The composite literal [&pstypes.PS{PID: pid, Ppid: ppid}]. *)
Definition zeroProc (pid ppid : Z) : PS :=
  mkPS pid ppid "" "" "" "" 0 None "" ∅ None [] [] [].

Definition set_Parent (parent : option loc) (p : PS) : PS :=
  mkPS (PID p) (Ppid p) (Name p) (Cmdline p) (Exe p) (SID p) (SessionID p)
    (PE p) (Cwd p) (Envs p) parent (Threads p) (Modules p) (Handles p).

Definition set_PE (pe : option PEFile) (p : PS) : PS :=
  mkPS (PID p) (Ppid p) (Name p) (Cmdline p) (Exe p) (SID p) (SessionID p)
    pe (Cwd p) (Envs p) (Parent p) (Threads p) (Modules p) (Handles p).

Definition set_Handles (handles : list Handle) (p : PS) : PS :=
  mkPS (PID p) (Ppid p) (Name p) (Cmdline p) (Exe p) (SID p) (SessionID p)
    (PE p) (Cwd p) (Envs p) (Parent p) (Threads p) (Modules p) handles.

Definition set_Envs_Cwd (envs : gmap string string) (cwd : string) (p : PS) : PS :=
  mkPS (PID p) (Ppid p) (Name p) (Cmdline p) (Exe p) (SID p) (SessionID p)
    (PE p) cwd envs (Parent p) (Threads p) (Modules p) (Handles p).

Definition set_Cmdline (cmdline : string) (p : PS) : PS :=
  mkPS (PID p) (Ppid p) (Name p) cmdline (Exe p) (SID p) (SessionID p)
    (PE p) (Cwd p) (Envs p) (Parent p) (Threads p) (Modules p) (Handles p).

Definition set_Exe_Name (exe name : string) (p : PS) : PS :=
  mkPS (PID p) (Ppid p) name (Cmdline p) exe (SID p) (SessionID p)
    (PE p) (Cwd p) (Envs p) (Parent p) (Threads p) (Modules p) (Handles p).

Definition set_Ppid (ppid : Z) (p : PS) : PS :=
  mkPS (PID p) ppid (Name p) (Cmdline p) (Exe p) (SID p) (SessionID p)
    (PE p) (Cwd p) (Envs p) (Parent p) (Threads p) (Modules p) (Handles p).

End pstypes.

(** ** The process snapshotter (snapshotter_windows.go) *)

Module ps.

(** The process environment block as [ReadPEB] returns it. *)
Record PEB := mkPEB {
  GetEnvs : gmap string string;
  GetCommandLine : string;
  GetCurrentWorkingDirectory : string
}.

(** [windows.PROCESS_QUERY_INFORMATION | windows.PROCESS_VM_READ]. *)
Definition PROCESS_QUERY_INFORMATION_VM_READ : Z := Z.lor 0x0400 0x0010.
(** [windows.PROCESS_QUERY_LIMITED_INFORMATION]. *)
Definition PROCESS_QUERY_LIMITED_INFORMATION : Z := 0x1000.

(** The collaborators of the snapshotter, all outside the sources: the PE
    reader and the handle snapshotter (both return a value together with an
    error), the operating system's process calls, the constant
    [zsyscall.InvalidProcessPid], Go's [filepath.Base], the event's
    [GetParamAsString] and [MustGetUint32], and the record's [AddThread] and
    [AddModule].  During one operation of the snapshotter each of the
    operating system's answers is asked for once, so they are functions of
    what is asked.  [MustGetUint32] has the type Go gives it: it returns a
    number; the handles the snapshotter closes again leave no trace here. *)
Class Deps := {
  pe_Read : string -> option pstypes.PEFile * option error;
  hsnap_FindHandles : Z -> list pstypes.Handle * option error;
  OpenProcess : Z -> Z -> result Z;
  ReadPEB : Z -> result PEB;
  QueryFullProcessImageName : Z -> result string;
  QueryInformationProcess : Z -> result Z;
  IsProcessRunning : Z -> bool;
  InvalidProcessPid : Z;
  filepath_Base : string -> string;
  GetParamAsString : kparams.Name -> Kevent -> string;
  MustGetUint32 : kparams.Name -> Kparams -> Z;
  PS_AddThread : pstypes.Thread -> pstypes.PS -> pstypes.PS;
  PS_AddModule : pstypes.Module_ -> pstypes.PS -> pstypes.PS
}.

(** [snapshotter]: the index [procs] from PID to a pointer to the record,
    the store [heap] of the records pointers point to (the events' [PS]
    pointers point into the same store), the [capture] flag, and the
    counters of the package. *)
Record snapshotter := mkSnapshotter {
  heap : gmap loc pstypes.PS;
  procs : gmap Z loc;
  capture : bool;
  processLookupFailureCount : gmap Z Z;
  reapedProcesses : Z;
  processCount : Z;
  threadCount : Z;
  moduleCount : Z;
  pebReadErrors : Z
}.

Definition set_heap (hp : gmap loc pstypes.PS) (s : snapshotter) : snapshotter :=
  mkSnapshotter hp (procs s) (capture s) (processLookupFailureCount s)
    (reapedProcesses s) (processCount s) (threadCount s) (moduleCount s)
    (pebReadErrors s).

Definition set_procs (ps : gmap Z loc) (s : snapshotter) : snapshotter :=
  mkSnapshotter (heap s) ps (capture s) (processLookupFailureCount s)
    (reapedProcesses s) (processCount s) (threadCount s) (moduleCount s)
    (pebReadErrors s).

Definition add_processCount (d : Z) (s : snapshotter) : snapshotter :=
  mkSnapshotter (heap s) (procs s) (capture s) (processLookupFailureCount s)
    (reapedProcesses s) (Int_Add (processCount s) d) (threadCount s)
    (moduleCount s) (pebReadErrors s).

Definition add_threadCount (d : Z) (s : snapshotter) : snapshotter :=
  mkSnapshotter (heap s) (procs s) (capture s) (processLookupFailureCount s)
    (reapedProcesses s) (processCount s) (Int_Add (threadCount s) d)
    (moduleCount s) (pebReadErrors s).

Definition add_moduleCount (d : Z) (s : snapshotter) : snapshotter :=
  mkSnapshotter (heap s) (procs s) (capture s) (processLookupFailureCount s)
    (reapedProcesses s) (processCount s) (threadCount s)
    (Int_Add (moduleCount s) d) (pebReadErrors s).

Definition add_pebReadErrors (d : Z) (s : snapshotter) : snapshotter :=
  mkSnapshotter (heap s) (procs s) (capture s) (processLookupFailureCount s)
    (reapedProcesses s) (processCount s) (threadCount s) (moduleCount s)
    (Int_Add (pebReadErrors s) d).

Definition add_reapedProcesses (d : Z) (s : snapshotter) : snapshotter :=
  mkSnapshotter (heap s) (procs s) (capture s) (processLookupFailureCount s)
    (Int_Add (reapedProcesses s) d) (processCount s) (threadCount s)
    (moduleCount s) (pebReadErrors s).

(** [processLookupFailureCount.Add(strconv.Itoa(int(pid)), 1)]; the key is
    kept as the number it prints. *)
Definition add_lookupFailure (pid : Z) (s : snapshotter) : snapshotter :=
  mkSnapshotter (heap s) (procs s) (capture s)
    (<[pid := Int_Add (default 0 (processLookupFailureCount s !! pid)) 1]>
       (processLookupFailureCount s))
    (reapedProcesses s) (processCount s) (threadCount s) (moduleCount s)
    (pebReadErrors s).

(** A new record in the store: the pointer to it and the store with it. *)
Definition alloc (p : pstypes.PS) (hp : gmap loc pstypes.PS)
    : loc * gmap loc pstypes.PS :=
  let l := fresh (dom hp) in (l, <[l := p]> hp).

Section snapshotter.
Context `{!Deps}.

(** The thread an event describes (lines 144-153 and 220-229). *)
Definition threadOf (e : Kevent) : pstypes.Thread :=
  let kpars := Kparams_ e in
  pstypes.mkThread
    (or_zero 0 (GetTid kpars))
    (or_zero 0 (GetHex kparams.UstackBase kpars))
    (or_zero 0 (GetHex kparams.UstackLimit kpars))
    (or_zero 0 (GetHex kparams.KstackBase kpars))
    (or_zero 0 (GetHex kparams.KstackLimit kpars))
    (or_zero 0 (GetUint8 kparams.IOPrio kpars))
    (or_zero 0 (GetUint8 kparams.BasePrio kpars))
    (or_zero 0 (GetUint8 kparams.PagePrio kpars))
    (or_zero 0 (GetHex kparams.StartAddr kpars)).

(** The module an event describes (lines 166-171 and 246-251). *)
Definition moduleOf (e : Kevent) : pstypes.Module_ :=
  let kpars := Kparams_ e in
  pstypes.mkModule
    (or_zero 0 (GetUint32 kparams.ImageSize kpars))
    (or_zero 0 (GetUint32 kparams.ImageCheckSum kpars))
    (or_zero ""%string (GetString kparams.ImageFilename kpars))
    (or_zero 0 (GetHex kparams.ImageBase kpars))
    (or_zero 0 (GetHex kparams.ImageDefaultBase kpars)).

(** The record that lines 125-133 and 286-294 make from the parameters of
    the event. *)
Definition procOf (pid ppid : Z) (e : Kevent) : pstypes.PS :=
  pstypes.NewProc pid ppid
    (GetParamAsString kparams.ProcessName e)
    (GetParamAsString kparams.Cmdline e)
    (GetParamAsString kparams.Exe e)
    (GetParamAsString kparams.UserSID e)
    (to_uint 8 (MustGetUint32 kparams.SessionID (Kparams_ e))).

(** [snapshotter.WriteFromKcap].  [None] stands for the dereference of a
    [PS] pointer that points to no record of the store, which no Go
    execution performs; otherwise the returned error and the snapshotter
    afterwards. *)
Definition WriteFromKcap (e : Kevent) (s : snapshotter)
    : option (option error * snapshotter) :=
  match Typ e with
  | ktypes.CreateProcess | ktypes.ProcessRundown =>
    match PS e with
    | None => Some (None, s)
    | Some proc =>
      match GetPid (Kparams_ e) with
      | Err err => Some (Some err, s)
      | Ok pid =>
      match GetPpid (Kparams_ e) with
      | Err err => Some (Some err, s)
      | Ok ppid =>
        match heap s !! proc with
        | None => None
        | Some rec =>
          if bool_decide (Typ e = ktypes.ProcessRundown) then
            if pstypes.PID rec =? pstypes.Ppid rec then Some (None, s)
            else
              let procs1 := <[pid := proc]> (procs s) in
              Some (None,
                    set_heap (<[proc := pstypes.set_Parent (procs1 !! ppid) rec]> (heap s))
                      (set_procs procs1 s))
          else
            let '(l, heap1) := alloc (procOf pid ppid e) (heap s) in
            let procs1 := <[pid := l]> (procs s) in
            match heap1 !! proc with
            | None => None
            | Some rec1 =>
              Some (None,
                    set_heap (<[proc := pstypes.set_Parent (procs1 !! ppid) rec1]> heap1)
                      (set_procs procs1 s))
            end
        end
      end end
    end
  | ktypes.CreateThread | ktypes.ThreadRundown =>
    match GetPid (Kparams_ e) with
    | Err err => Some (Some err, s)
    | Ok pid =>
      let s1 := add_threadCount 1 s in
      match procs s1 !! pid with
      | Some l =>
        Some (None, set_heap (alter (PS_AddThread (threadOf e)) l (heap s1)) s1)
      | None => Some (None, s1)
      end
    end
  | ktypes.LoadImage | ktypes.ImageRundown =>
    match GetPid (Kparams_ e) with
    | Err err => Some (Some err, s)
    | Ok pid =>
      let s1 := add_moduleCount 1 s in
      match procs s1 !! pid with
      | None => Some (None, s1)
      | Some l =>
        Some (None, set_heap (alter (PS_AddModule (moduleOf e)) l (heap s1)) s1)
      end
    end
  | _ => Some (None, s)
  end.

(** [snapshotter.initProc]: the record, the error, and whether the read of
    the PEB failed (which [pebReadErrors] counts). *)
Definition initProc (pid ppid : Z) (e : Kevent)
    : pstypes.PS * option error * bool :=
  let proc := procOf pid ppid e in
  let '(pe, err) := pe_Read (pstypes.Exe proc) in
  let proc := pstypes.set_PE pe proc in
  match err with
  | Some err => (proc, Some err, false)
  | None =>
    let '(handles, err) := hsnap_FindHandles pid in
    let proc := pstypes.set_Handles handles proc in
    match err with
    | Some err => (proc, Some err, false)
    | None =>
      match OpenProcess PROCESS_QUERY_INFORMATION_VM_READ pid with
      | Err _ => (proc, None, false)
      | Ok process =>
        match ReadPEB process with
        | Err err => (proc, Some err, true)
        | Ok peb =>
          (pstypes.set_Envs_Cwd (GetEnvs peb) (GetCurrentWorkingDirectory peb) proc,
           None, false)
        end
      end
    end
  end.

(** [snapshotter.Write]: the event as it is left, the returned error, and
    the snapshotter afterwards. *)
Definition Write (e : Kevent) (s : snapshotter)
    : Kevent * option error * snapshotter :=
  let s := add_processCount 1 s in
  match GetPid (Kparams_ e) with
  | Err err => (e, Some err, s)
  | Ok pid =>
  match GetPpid (Kparams_ e) with
  | Err err => (e, Some err, s)
  | Ok ppid =>
    let '(rec, err, pebFailed) := initProc pid ppid e in
    let s := if pebFailed then add_pebReadErrors 1 s else s in
    let '(proc, heap1) := alloc rec (heap s) in
    let procs1 := <[pid := proc]> (procs s) in
    let heap2 := <[proc := pstypes.set_Parent (procs1 !! ppid) rec]> heap1 in
    let e1 :=
      if IsCreateProcess e then set_PS (procs1 !! PID e) e
      else set_PS (Some proc) e in
    (e1, err, set_heap heap2 (set_procs procs1 s))
  end end.

(** The body of the loop of [gcDeadProcesses] for one PID of the index. *)
Definition reapOne (pid : Z) (procs : gmap Z loc) : gmap Z loc :=
  match OpenProcess PROCESS_QUERY_LIMITED_INFORMATION pid with
  | Err _ => procs
  | Ok proc => if negb (IsProcessRunning proc) then delete pid procs else procs
  end.

(** One tick of [gcDeadProcesses] (lines 335-355): the sweep over the index
    in the order the map hands out its keys, then the counter. *)
Definition gcTick (s : snapshotter) : snapshotter :=
  let ss := size (procs s) in
  let procs1 := map_fold (fun pid _ acc => reapOne pid acc) (procs s) (procs s) in
  let s1 := set_procs procs1 s in
  if (size procs1 <? ss)%nat then
    let reaped := (Z.of_nat ss - Z.of_nat (size procs1)) in
    add_reapedProcesses (to_int64 reaped) s1
  else s1.

(** The body of the loop of [Remove] for one entry of the index. *)
Definition orphan (pid : Z) (l : loc) (hp : gmap loc pstypes.PS)
    : gmap loc pstypes.PS :=
  match hp !! l with
  | Some rec =>
    if pstypes.Ppid rec =? pid then <[l := pstypes.set_Parent None rec]> hp
    else hp
  | None => hp
  end.

(** [snapshotter.Remove]. *)
Definition Remove (e : Kevent) (s : snapshotter) : option error * snapshotter :=
  match GetPid (Kparams_ e) with
  | Err err => (Some err, s)
  | Ok pid =>
    let procs1 := delete pid (procs s) in
    let s1 := add_processCount (-1) (set_procs procs1 s) in
    (None,
     set_heap (map_fold (fun _ l hp => orphan pid l hp) (heap s1) procs1) s1)
  end.

(** Lines 416-472 of [Find]: the record made for a PID the index misses,
    whether it is to be put into the index, and whether the read of the PEB
    failed. *)
Definition lookup (pid : Z) : pstypes.PS * bool * bool :=
  let proc := pstypes.zeroProc pid InvalidProcessPid in
  let opened : pstypes.PS + pstypes.PS * Z :=
    match OpenProcess PROCESS_QUERY_INFORMATION_VM_READ pid with
    | Ok process => inr (proc, process)
    | Err _ =>
      match OpenProcess PROCESS_QUERY_LIMITED_INFORMATION pid with
      | Err _ => inl proc
      | Ok process =>
        match QueryFullProcessImageName process with
        | Err _ => inl proc
        | Ok image =>
          inr (pstypes.set_Exe_Name image (filepath_Base image) proc, process)
        end
      end
    end in
  match opened with
  | inl proc => (proc, false, false)
  | inr (proc, process) =>
    let '(pe, err) := pe_Read (pstypes.Exe proc) in
    let proc := pstypes.set_PE pe proc in
    match err with
    | Some _ => (proc, false, false)
    | None =>
      match QueryInformationProcess process with
      | Err _ => (proc, false, false)
      | Ok ppid =>
        let proc := pstypes.set_Ppid (to_uint 32 ppid) proc in
        let '(handles, err) := hsnap_FindHandles pid in
        let proc := pstypes.set_Handles handles proc in
        match err with
        | Some _ => (proc, false, false)
        | None =>
          match ReadPEB process with
          | Err _ => (proc, false, true)
          | Ok peb =>
            (pstypes.set_Cmdline (GetCommandLine peb)
               (pstypes.set_Envs_Cwd (GetEnvs peb)
                  (GetCurrentWorkingDirectory peb) proc),
             true, false)
          end
        end
      end
    end
  end.

(** [snapshotter.Find]. *)
Definition Find (pid : Z) (s : snapshotter) : option loc * snapshotter :=
  match procs s !! pid with
  | Some ps => (Some ps, s)
  | None =>
    if capture s then (None, s)
    else
      let s1 := add_lookupFailure pid s in
      let '(rec, found, pebFailed) := lookup pid in
      let s2 := if pebFailed then add_pebReadErrors 1 s1 else s1 in
      let '(proc, heap1) := alloc rec (heap s2) in
      let s3 := set_heap heap1 s2 in
      (Some proc, if found then set_procs (<[pid := proc]> (procs s3)) s3 else s3)
  end.

(** [snapshotter.Size]. *)
Definition Size (s : snapshotter) : Z := to_uint 32 (Z.of_nat (size (procs s))).

End snapshotter.

End ps.

(** ** The trace consumer (kstreamc_windows.go) *)

Module kstream.

(** Where a published event goes: onto the channel [kevts] that [Events()]
    returns, or to the event callback. *)
Inductive Sink := Channel | Callback.

(** The collaborators of the consumer, all outside the sources, over the
    state [W] they keep (snapshotter, processors, the table of processed
    rundowns) and the type [R] of raw event records: the decoding part of
    [kevent.New]; the classification methods of the event
    ([IsRundownProcessed] may record the rundown it is asked about); the PID
    of the agent's own process; the configuration's [ExcludeImage], which
    reads the record behind the pointer, and [ExcludeKevent]; the [Find] of
    the [ps.Snapshotter] interface; and the [ProcessEvent] of the
    [processors.Chain] interface. *)
Class Deps (W R : Type) := {
  decode : R -> option Kevent;
  IsState : Kevent -> bool;
  IsRundown : Kevent -> bool;
  IsRundownProcessed : Kevent -> W -> bool * W;
  currentPid : Z;
  ExcludeImage : option loc -> W -> bool;
  ExcludeKevent : Kevent -> bool;
  psnapshotter_Find : Z -> W -> option loc * W;
  processors_ProcessEvent : Kevent -> W -> option Kevent * option error * W
}.

(** Modelled from the spec: the sequencer is a 64-bit counter; [Increment]
    allocates the next number. *)
Definition Sequencer_Increment (seq : Z) : Z := to_uint 64 (seq + 1).

Section consumer.
Context {W R : Type} `{!Deps W R}.

(** Modelled from the spec: [kevent.New] allocates an event stamped with
    the sequence number it is given; when decoding yields nothing it returns
    nil. *)
Definition New (seq : Z) (evt : R) : option Kevent := set_Seq seq <$> decode evt.

(** Modelled from the spec: [CurrentPid] says whether the event's PID is
    the PID of the agent's own process. *)
Definition CurrentPid (e : Kevent) : bool := PID e =? currentPid.

(** [kstreamConsumer] with the counters of the package.  The channels are
    modelled by what has been sent on them, oldest first: a send on [kevts]
    blocks while the channel is full but is never dropped.  [delivered]
    holds the events sent on [kevts] together with the events the callback
    was called with, in the order of these deliveries. *)
Record kstreamConsumer := mkConsumer {
  world : W;
  sequencer : Z;
  capture : bool;
  filter : option (Kevent -> W -> bool);
  eventCallback : option (Kevent -> option error);
  delivered : list (Sink * Kevent);
  errs : list error;
  failedKevents : list error;
  keventsEnqueued : Z;
  excludedKevents : Z;
  excludedProcs : Z;
  upstreamCancellations : Z;
  buffersRead : Z
}.

(** What has been sent on the channel that [Events()] returns. *)
Definition Events (k : kstreamConsumer) : list Kevent :=
  omap (fun d => match d with (Channel, e) => Some e | _ => None end)
    (delivered k).

Definition set_world (w : W) (k : kstreamConsumer) : kstreamConsumer :=
  mkConsumer w (sequencer k) (capture k) (filter k) (eventCallback k)
    (delivered k) (errs k) (failedKevents k) (keventsEnqueued k)
    (excludedKevents k) (excludedProcs k) (upstreamCancellations k)
    (buffersRead k).

Definition set_sequencer (seq : Z) (k : kstreamConsumer) : kstreamConsumer :=
  mkConsumer (world k) seq (capture k) (filter k) (eventCallback k)
    (delivered k) (errs k) (failedKevents k) (keventsEnqueued k)
    (excludedKevents k) (excludedProcs k) (upstreamCancellations k)
    (buffersRead k).

Definition deliver (d : Sink * Kevent) (k : kstreamConsumer) : kstreamConsumer :=
  mkConsumer (world k) (sequencer k) (capture k) (filter k) (eventCallback k)
    (delivered k ++ [d]) (errs k) (failedKevents k) (keventsEnqueued k)
    (excludedKevents k) (excludedProcs k) (upstreamCancellations k)
    (buffersRead k).

Definition add_keventsEnqueued (k : kstreamConsumer) : kstreamConsumer :=
  mkConsumer (world k) (sequencer k) (capture k) (filter k) (eventCallback k)
    (delivered k) (errs k) (failedKevents k) (Int_Add (keventsEnqueued k) 1)
    (excludedKevents k) (excludedProcs k) (upstreamCancellations k)
    (buffersRead k).

Definition add_excludedKevents (k : kstreamConsumer) : kstreamConsumer :=
  mkConsumer (world k) (sequencer k) (capture k) (filter k) (eventCallback k)
    (delivered k) (errs k) (failedKevents k) (keventsEnqueued k)
    (Int_Add (excludedKevents k) 1) (excludedProcs k) (upstreamCancellations k)
    (buffersRead k).

Definition add_excludedProcs (k : kstreamConsumer) : kstreamConsumer :=
  mkConsumer (world k) (sequencer k) (capture k) (filter k) (eventCallback k)
    (delivered k) (errs k) (failedKevents k) (keventsEnqueued k)
    (excludedKevents k) (Int_Add (excludedProcs k) 1) (upstreamCancellations k)
    (buffersRead k).

Definition add_upstreamCancellations (k : kstreamConsumer) : kstreamConsumer :=
  mkConsumer (world k) (sequencer k) (capture k) (filter k) (eventCallback k)
    (delivered k) (errs k) (failedKevents k) (keventsEnqueued k)
    (excludedKevents k) (excludedProcs k)
    (Int_Add (upstreamCancellations k) 1) (buffersRead k).

Definition add_buffersRead (n : Z) (k : kstreamConsumer) : kstreamConsumer :=
  mkConsumer (world k) (sequencer k) (capture k) (filter k) (eventCallback k)
    (delivered k) (errs k) (failedKevents k) (keventsEnqueued k)
    (excludedKevents k) (excludedProcs k) (upstreamCancellations k)
    (Int_Add (buffersRead k) n).

Definition fail (err : error) (k : kstreamConsumer) : kstreamConsumer :=
  mkConsumer (world k) (sequencer k) (capture k) (filter k) (eventCallback k)
    (delivered k) (errs k ++ [err]) (failedKevents k ++ [err])
    (keventsEnqueued k) (excludedKevents k) (excludedProcs k)
    (upstreamCancellations k) (buffersRead k).

(** [SetFilter]. *)
Definition SetFilter (f : option (Kevent -> W -> bool)) (k : kstreamConsumer)
    : kstreamConsumer :=
  mkConsumer (world k) (sequencer k) (capture k) f (eventCallback k)
    (delivered k) (errs k) (failedKevents k) (keventsEnqueued k)
    (excludedKevents k) (excludedProcs k) (upstreamCancellations k)
    (buffersRead k).

(** [SetEventCallback]. *)
Definition SetEventCallback (f : option (Kevent -> option error))
    (k : kstreamConsumer) : kstreamConsumer :=
  mkConsumer (world k) (sequencer k) (capture k) (filter k) f
    (delivered k) (errs k) (failedKevents k) (keventsEnqueued k)
    (excludedKevents k) (excludedProcs k) (upstreamCancellations k)
    (buffersRead k).

(** [bufferStatsCallback]; [n] is [int64(logfile.BuffersRead)]. *)
Definition bufferStatsCallback (n : Z) (k : kstreamConsumer) : kstreamConsumer :=
  add_buffersRead n k.

(** [isEventDropped]. *)
Definition isEventDropped (e : Kevent) (k : kstreamConsumer)
    : bool * kstreamConsumer :=
  if IsState e && negb (capture k) then (true, k)
  else
    let '(rundown, k1) :=
      if IsRundown e then
        let '(processed, w) := IsRundownProcessed e (world k) in
        (processed, set_world w k)
      else (false, k) in
    if rundown then (true, k1)
    else if CurrentPid e then (true, k1)
    else if ExcludeKevent e then (true, add_excludedKevents k1)
    else
      match filter k1 with
      | Some f => (negb (f e (world k1)), k1)
      | None => (false, k1)
      end.

(** [publishEvent]; [e.Release()] gives pooled buffers back and leaves no
    trace in this state. *)
Definition publishEvent (e : Kevent) (k : kstreamConsumer)
    : option error * kstreamConsumer :=
  let '(proc, w) := psnapshotter_Find (PID e) (world k) in
  let k := set_world w k in
  if ExcludeImage proc (world k) then (None, add_excludedProcs k)
  else
    let e := match PS e with None => set_PS proc e | Some _ => e end in
    let '(dropped, k) := isEventDropped e k in
    if dropped then (None, k)
    else
      let k := if negb (IsState e)
               then set_sequencer (Sequencer_Increment (sequencer k)) k
               else k in
      match eventCallback k with
      | Some f => (f e, deliver (Callback, e) k)
      | None => (None, add_keventsEnqueued (deliver (Channel, e) k))
      end.

(** Modelled from the spec: [Publish] hands the output of the chain to the
    function it is given; the method is declared outside the sources.  A
    chain without processors has no output. *)
Definition Publish (evts : option Kevent)
    (fn : Kevent -> kstreamConsumer -> option error * kstreamConsumer)
    (k : kstreamConsumer) : option error * kstreamConsumer :=
  match evts with
  | Some e => fn e k
  | None => (None, k)
  end.

(** [processEvent]. *)
Definition processEvent (evt : R) (k : kstreamConsumer)
    : option error * kstreamConsumer :=
  match New (sequencer k) evt with
  | None => (None, k)
  | Some e =>
    let '(evts, err, w) := processors_ProcessEvent e (world k) in
    let k := set_world w k in
    match err with
    | Some err =>
      if IsCancelUpstreamKevent err then (None, add_upstreamCancellations k)
      else (Some err, k)
    | None => Publish evts publishEvent k
    end
  end.

(** [processEventCallback]. *)
Definition processEventCallback (evt : R) (k : kstreamConsumer)
    : kstreamConsumer :=
  match processEvent evt k with
  | (Some err, k1) => fail err k1
  | (None, k1) => k1
  end.

(** What happens to a consumer: the operating system hands it a record or
    buffer statistics, or the owner installs a filter or a callback. *)
Inductive Op :=
| OnRecord (evt : R)
| OnBufferStats (n : Z)
| OnSetFilter (f : option (Kevent -> W -> bool))
| OnSetEventCallback (f : option (Kevent -> option error)).

Definition step (k : kstreamConsumer) (op : Op) : kstreamConsumer :=
  match op with
  | OnRecord evt => processEventCallback evt k
  | OnBufferStats n => bufferStatsCallback n k
  | OnSetFilter f => SetFilter f k
  | OnSetEventCallback f => SetEventCallback f k
  end.

(** A run of the consumer, its callbacks one at a time. *)
Definition run (ops : list Op) (k : kstreamConsumer) : kstreamConsumer :=
  fold_left step ops k.

End consumer.

Arguments kstreamConsumer : clear implicits.
Arguments Op : clear implicits.

End kstream.

(** ** Definitions used to state the properties *)

(** The failure counter after [n] more failures. *)
Definition failures_after (n : nat) (c : Z) : Z :=
  Nat.iter n (fun c => Int_Add c 1) c.


Section reaper_defs.
Context `{!ps.Deps}.

(** The operating system reports the process as not running: the open with
    limited-information rights succeeds and [IsProcessRunning] says no. *)
Definition dead (pid : Z) : bool :=
  match ps.OpenProcess ps.PROCESS_QUERY_LIMITED_INFORMATION pid with
  | Ok proc => negb (ps.IsProcessRunning proc)
  | Err _ => false
  end.

(** The entries of an index whose process is dead. *)
Definition dead_entries (procs : gmap Z loc) : gmap Z loc :=
  filter (fun kv => dead kv.1 = true) procs.

End reaper_defs.

(** What [Remove] of PID [pid] makes of a record of the index: a record
    whose parent PID is [pid] loses its parent pointer, any other stays. *)
Definition orphaned (pid : Z) (rec : pstypes.PS) : pstypes.PS :=
  if pstypes.Ppid rec =? pid then pstypes.set_Parent None rec else rec.

Section consumer_defs.
Context {W R : Type} `{!kstream.Deps W R}.




End consumer_defs.

(** ** Concrete scenarios

    The collaborators and inputs of the concrete scenarios of the design
    (section 8), on which the properties below are exercised. *)

Module scenario.

(** How the scenarios render a parameter as a string: the string a string
    parameter holds, the empty string otherwise. *)
Definition paramAsString (name : kparams.Name) (e : Kevent) : string :=
  match Kparams_ e !! name with
  | Some (mkKparam _ (VString s)) => s
  | _ => ""%string
  end.

(** An event outside the process and handle categories. *)
Definition other (pid : Z) : Kevent :=
  mkKevent 0 0 (ktypes.OtherCategory 0) (ktypes.Other 0) pid 1 None ∅.

(** *** Processors *)

(** A processor that passes every event on, as the process and handle
    processors do with events outside their categories. *)
Definition passing (name : ProcessorType) : processors.Processor unit :=
  processors.mkProcessor name
    (fun e w => (processors.mkOutcome e e true None, w)) (fun w => w).

(** A processor that fails, with [next] unset. *)
Definition failing : processors.Processor unit :=
  processors.mkProcessor (OtherProcessor 1)
    (fun e w => (processors.mkOutcome e e false (Some (ErrNew "lookup failed")), w))
    (fun w => w).

(** A processor that cancels the event. *)
Definition cancelling : processors.Processor unit :=
  processors.mkProcessor (OtherProcessor 2)
    (fun e w =>
       (processors.mkOutcome e e false (Some ErrCancelUpstreamKevent), w))
    (fun w => w).

(** *** Handle processor: scenario 3 *)

(** The state of the collaborators is whether the handle snapshotter
    accepts writes and removals.  The type store knows Key (13) and Driver
    (5); [key.Format] knows the machine hive. *)
Definition handleDeps : processors.HandleDeps bool := {|
  processors.typeStore_FindByID := fun id _ =>
    if id =? 13 then "Key"%string else if id =? 5 then "Driver"%string
    else ""%string;
  processors.typeStore_RegisterType := fun _ _ x => x;
  processors.handle_Duplicate := fun _ _ x => (Err (Errno 5), x);
  processors.handle_QueryType := fun _ x => (Err (Errno 6), x);
  processors.dup_Close := fun _ x => x;
  processors.key_Format := fun name =>
    if String.prefix "\REGISTRY\MACHINE\" name
    then (Some "HKLM"%string,
          String.substring 18 (String.length name - 18) name)
    else (None, name);
  processors.devMapper_Convert := fun name _ => name;
  processors.driver_EnumDevices := fun x => ([], x);
  processors.filepath_Base := fun path => path;
  processors.strings_EqualFold := String.eqb;
  processors.hsnap_Write := fun _ (x : bool) =>
    (if x then None else Some (ErrNew "handle snapshotter: write failed"), x);
  processors.hsnap_Remove := fun _ (x : bool) =>
    (if x then None else Some (ErrNew "handle snapshotter: remove failed"), x);
  processors.GetParamAsString := paramAsString
|}.

Definition handleParams (name : string) : Kparams :=
  list_to_map
    [(kparams.HandleID, mkKparam kparams.Uint32 (VUint32 44));
     (kparams.HandleObjectTypeID, mkKparam kparams.Uint16 (VUint16 13));
     (kparams.HandleObject, mkKparam kparams.Uint64 (VUint64 0xabc));
     (kparams.HandleObjectName, mkKparam kparams.UnicodeString (VString name))].

(** CreateHandle{object=0xabc, handleID=44, typeID=Key, name=""}. *)
Definition createHandle : Kevent :=
  mkKevent 0 0 ktypes.Handle ktypes.CreateHandle 100 1 None (handleParams "").

(** CloseHandle{object=0xabc, handleID=44, typeID=Key,
    name=\REGISTRY\MACHINE\SOFTWARE\X}. *)
Definition closeHandle : Kevent :=
  mkKevent 0 0 ktypes.Handle ktypes.CloseHandle 100 1 None
    (handleParams "\REGISTRY\MACHINE\SOFTWARE\X").

(** A handle processor with an empty pending table. *)
Definition handleProcessor0 (healthy : bool) : processors.handleProcessor bool :=
  processors.mkHandleProcessor healthy ∅ 0.

(** The same after the CreateHandle has gone through it. *)
Definition handleProcessor1 (healthy : bool) : processors.handleProcessor bool :=
  (@processors.processEvent bool handleDeps createHandle
     (handleProcessor0 healthy)).2.

(** *** Resolver *)



(** *** Snapshotter: scenarios 2 and 6 *)

(** The process 200 cannot be opened; the process 201 opens and is not
    running; every other process opens and is running.  An image without a
    path has no PE data. *)
Definition psDeps : ps.Deps := {|
  ps.pe_Read := fun exe =>
    if String.eqb exe "" then (None, Some (ErrNew "pe: no such file"))
    else (Some (pstypes.PEData 1), None);
  ps.hsnap_FindHandles := fun _ => ([], None);
  ps.OpenProcess := fun _ pid =>
    if pid =? 200 then Err (Errno 5) else Ok (pid * 10);
  ps.ReadPEB := fun _ => Err (Errno 299);
  ps.QueryFullProcessImageName := fun _ => Err (Errno 31);
  ps.QueryInformationProcess := fun _ => Err (Errno 31);
  ps.IsProcessRunning := fun proc => negb (proc =? 2010);
  ps.InvalidProcessPid := 0xffffffff;
  ps.filepath_Base := fun path => path;
  ps.GetParamAsString := paramAsString;
  ps.MustGetUint32 := fun name kpars => or_zero 0 (GetUint32 name kpars);
  ps.PS_AddThread := fun t p =>
    pstypes.mkPS (pstypes.PID p) (pstypes.Ppid p) (pstypes.Name p)
      (pstypes.Cmdline p) (pstypes.Exe p) (pstypes.SID p) (pstypes.SessionID p)
      (pstypes.PE p) (pstypes.Cwd p) (pstypes.Envs p) (pstypes.Parent p)
      (pstypes.Threads p ++ [t]) (pstypes.Modules p) (pstypes.Handles p);
  ps.PS_AddModule := fun m p =>
    pstypes.mkPS (pstypes.PID p) (pstypes.Ppid p) (pstypes.Name p)
      (pstypes.Cmdline p) (pstypes.Exe p) (pstypes.SID p) (pstypes.SessionID p)
      (pstypes.PE p) (pstypes.Cwd p) (pstypes.Envs p) (pstypes.Parent p)
      (pstypes.Threads p) (pstypes.Modules p ++ [m]) (pstypes.Handles p)
|}.

Definition proc (pid ppid : Z) (name : string) (parent : option loc) : pstypes.PS :=
  pstypes.set_Parent parent
    (pstypes.NewProc pid ppid name name name "S-1-5-18" 0).

(** An index of four processes: System (4), two children of it (200, 201)
    and the agent itself (4242).  The store holds one more record, which
    no index entry points to: the bogus process 100 that is its own
    parent. *)
Definition snapshot (capture : bool) : ps.snapshotter :=
  ps.mkSnapshotter
    (list_to_map
       [(1%positive, proc 4 0 "System" None);
        (2%positive, proc 200 4 "svchost.exe" (Some 1%positive));
        (3%positive, proc 201 4 "csrss.exe" (Some 1%positive));
        (4%positive, proc 4242 4 "fibratus.exe" (Some 1%positive));
        (5%positive, proc 100 100 "Idle" None)])
    (list_to_map [(4, 1%positive); (200, 2%positive); (201, 3%positive);
                  (4242, 4%positive)])
    capture ∅ 0 4 0 0 0.

Definition processParams (pid ppid : Z) (name : string) : Kparams :=
  list_to_map
    [(kparams.ProcessID, mkKparam kparams.Uint32 (VUint32 pid));
     (kparams.ProcessParentID, mkKparam kparams.Uint32 (VUint32 ppid));
     (kparams.ProcessName, mkKparam kparams.AnsiString (VString name));
     (kparams.SessionID, mkKparam kparams.Uint32 (VUint32 1))].

(** A process event by process [by_pid] about process [pid], carrying the
    record at [ps]. *)
Definition processEvent (typ : ktypes.Ktype) (by_pid pid ppid : Z)
    (name : string) (ps : option loc) : Kevent :=
  mkKevent 0 0 (ktypes.OtherCategory 1) typ by_pid 1 ps
    (processParams pid ppid name).

(** *** Consumer: scenario 4 *)

(** A consumer over the snapshotter above, whose chain passes every event
    on; the agent's PID is 4242 and its own image is on the list of
    excluded images; the rundown events are the state events. *)
Definition consumerDeps : kstream.Deps ps.snapshotter Kevent := {|
  kstream.decode := Some;
  kstream.IsState := fun e =>
    match Typ e with
    | ktypes.ProcessRundown | ktypes.ThreadRundown | ktypes.ImageRundown => true
    | _ => false
    end;
  kstream.IsRundown := fun e =>
    match Typ e with
    | ktypes.ProcessRundown | ktypes.ThreadRundown | ktypes.ImageRundown => true
    | _ => false
    end;
  kstream.IsRundownProcessed := fun _ w => (false, w);
  kstream.currentPid := 4242;
  kstream.ExcludeImage := fun proc w =>
    match proc with
    | Some l =>
      match ps.heap w !! l with
      | Some rec => String.eqb (pstypes.Name rec) "fibratus.exe"
      | None => false
      end
    | None => false
    end;
  kstream.ExcludeKevent := fun _ => false;
  kstream.psnapshotter_Find := @ps.Find psDeps;
  kstream.processors_ProcessEvent := fun e w => (Some e, None, w)
|}.

Definition consumer0 (capture : bool) : kstream.kstreamConsumer ps.snapshotter :=
  kstream.mkConsumer (snapshot capture) 0 capture None None [] [] [] 0 0 0 0 0.


(** *** Consumer over the handle processor: scenario 3 *)

(** A consumer whose chain is the handle processor alone; it knows no
    process, excludes nothing and has no state events. *)
Definition handleChain : processors.chain (processors.handleProcessor bool) :=
  processors.addProcessor
    (Some (processors.mkProcessor Handle
             (@processors.handle_ProcessEvent bool handleDeps) (fun h => h)))
    (processors.mkChain []).

Definition handleConsumerDeps
    : kstream.Deps (processors.Env (processors.handleProcessor bool)) Kevent := {|
  kstream.decode := Some;
  kstream.IsState := fun _ => false;
  kstream.IsRundown := fun _ => false;
  kstream.IsRundownProcessed := fun _ w => (false, w);
  kstream.currentPid := 4242;
  kstream.ExcludeImage := fun _ _ => false;
  kstream.ExcludeKevent := fun _ => false;
  kstream.psnapshotter_Find := fun _ w => (None, w);
  kstream.processors_ProcessEvent := processors.chain_ProcessEvent handleChain
|}.

Definition handleConsumer0
    : kstream.kstreamConsumer (processors.Env (processors.handleProcessor bool)) :=
  kstream.mkConsumer (processors.mkEnv (handleProcessor0 true) 0)
    0 false None None [] [] [] 0 0 0 0 0.

End scenario.

(** ** Further functions of the sources *)

(** Modelled from the spec: the classification flags derivable from the
    type. *)
Definition IsTerminateProcess (e : Kevent) : bool :=
  bool_decide (Typ e = ktypes.TerminateProcess).

(** Modelled from the spec: see [IsTerminateProcess]. *)
Definition IsTerminateThread (e : Kevent) : bool :=
  bool_decide (Typ e = ktypes.TerminateThread).

(** Modelled from the spec: the event's [AppendParam] stores the parameter
    in the event's parameters, as [Kparams.Append] does. *)
Definition AppendParam (name : kparams.Name) (typ : kparams.Type_)
    (value : Value) (e : Kevent) : Kevent :=
  set_Kparams (Kparams_Append name typ value (Kparams_ e)) e.

(** *** The process processor (the first file of src/unnamed/part_000) *)

Module psproc.

(** The collaborators of the process processor that are outside the
    sources: the command line of package cmdline with its methods (over the
    type [C] of command lines), the event's [MustGetPid], which has the
    type Go gives it, the calls [process.Open] with limited-information
    rights and [process.GetStartTime], and [time.Now]. *)
Class Deps (C : Type) := {
  cmdline_New : string -> C;
  CleanExe : C -> C;
  ExpandSystemRoot : C -> C;
  CompleteSysProc : string -> C -> C;
  Exeline : C -> string;
  Cmdline_String : C -> string;
  MustGetPid : Kparams -> Z;
  process_Open : Z -> result Z;
  process_GetStartTime : Z -> result Z;
  time_Now : Z
}.

Section psProcessor.
Context {C : Type} `{!Deps C} `{!ps.Deps}.

(** [getStartTime]. *)
Definition getStartTime (pid : Z) : Z * option error :=
  match process_Open pid with
  | Err err => (time_Now, Some err)
  | Ok h =>
    match process_GetStartTime h with
    | Err err => (time_Now, Some err)
    | Ok started => (started, None)
    end
  end.

(** [psProcessor.processEvent]: the event as it is left and the returned
    error. *)
Definition processEvent (e : Kevent) : Kevent * option error :=
  let cmndline :=
    CompleteSysProc (ps.GetParamAsString kparams.ProcessName e)
      (ExpandSystemRoot
         (CleanExe (cmdline_New (ps.GetParamAsString kparams.Cmdline e)))) in
  let e := AppendParam kparams.Exe kparams.FilePath (VString (Exeline cmndline)) e in
  let e :=
    match Kparams_SetValue kparams.Cmdline (VString (Cmdline_String cmndline))
            (Kparams_ e) with
    | Ok kpars => set_Kparams kpars e
    | Err _ => e
    end in
  if IsTerminateProcess e then (e, None)
  else
    let pid := MustGetPid (Kparams_ e) in
    let '(started, err) := getStartTime pid in
    let started := match err with Some _ => Timestamp e | None => started end in
    (AppendParam kparams.StartTime kparams.Time (VTime started) e, None).

(** [psProcessor.ProcessEvent] over the snapshotter of package ps.  [None]
    stands for the dereference of a pointer that points to no record of the
    store, which no Go execution performs. *)
Definition ProcessEvent (e : Kevent) (s : ps.snapshotter)
    : option (processors.Outcome * ps.snapshotter) :=
  match Typ e with
  | ktypes.CreateProcess | ktypes.TerminateProcess | ktypes.ProcessRundown =>
    let '(e1, err) := processEvent e in
    match err with
    | Some err => Some (processors.mkOutcome e1 e1 false (Some err), s)
    | None =>
      if IsTerminateProcess e1 then
        let '(err, s1) := ps.Remove e1 s in
        Some (processors.mkOutcome e1 e1 false err, s1)
      else
        let '(e2, err, s1) := ps.Write e1 s in
        Some (processors.mkOutcome e2 e2 false err, s1)
    end
  | ktypes.CreateThread | ktypes.TerminateThread | ktypes.ThreadRundown =>
    if negb (IsTerminateThread e) then
      let '(e2, err, s1) := ps.Write e s in
      Some (processors.mkOutcome e2 e2 false err, s1)
    else
      let '(err, s1) := ps.Remove e s in
      Some (processors.mkOutcome e e false err, s1)
  | ktypes.OpenProcess | ktypes.OpenThread =>
    match GetPid (Kparams_ e) with
    | Err err => Some (processors.mkOutcome e e false (Some err), s)
    | Ok pid =>
      let '(proc, s1) := ps.Find pid s in
      match proc with
      | None => Some (processors.mkOutcome e e false None, s1)
      | Some l =>
        match ps.heap s1 !! l with
        | None => None
        | Some rec =>
          let e1 :=
            AppendParam kparams.ProcessName kparams.AnsiString
              (VString (pstypes.Name rec))
              (AppendParam kparams.Exe kparams.FilePath
                 (VString (pstypes.Exe rec)) e) in
          Some (processors.mkOutcome e1 e1 false None, s1)
        end
      end
    end
  | _ => Some (processors.mkOutcome e e true None, s)
  end.

End psProcessor.

End psproc.

(** *** The snapshotter's other operations (snapshotter_windows.go) *)

Module pssnap.

(** The methods of the process record that these operations call, outside
    the sources. *)
Class RecordOps := {
  PS_RemoveThread : Z -> pstypes.PS -> pstypes.PS;
  PS_RemoveModule : string -> pstypes.PS -> pstypes.PS;
  PS_AddHandle : pstypes.Handle -> pstypes.PS -> pstypes.PS;
  PS_RemoveHandle : Z -> pstypes.PS -> pstypes.PS
}.

Section operations.
Context `{!ps.Deps} `{!RecordOps}.

(** [snapshotter.AddThread]. *)
Definition AddThread (e : Kevent) (s : ps.snapshotter)
    : option error * ps.snapshotter :=
  match GetPid (Kparams_ e) with
  | Err err => (Some err, s)
  | Ok pid =>
    let s1 := ps.add_threadCount 1 s in
    match ps.procs s1 !! pid with
    | None => (None, s1)
    | Some proc =>
      (None,
       ps.set_heap (alter (ps.PS_AddThread (ps.threadOf e)) proc (ps.heap s1)) s1)
    end
  end.

(** [snapshotter.AddModule]. *)
Definition AddModule (e : Kevent) (s : ps.snapshotter)
    : option error * ps.snapshotter :=
  match GetPid (Kparams_ e) with
  | Err err => (Some err, s)
  | Ok pid =>
    let s1 := ps.add_moduleCount 1 s in
    match ps.procs s1 !! pid with
    | None => (None, s1)
    | Some proc =>
      (None,
       ps.set_heap (alter (ps.PS_AddModule (ps.moduleOf e)) proc (ps.heap s1)) s1)
    end
  end.

(** [snapshotter.RemoveThread]. *)
Definition RemoveThread (pid tid : Z) (s : ps.snapshotter)
    : option error * ps.snapshotter :=
  match ps.procs s !! pid with
  | None => (None, s)
  | Some proc =>
    (None,
     ps.add_threadCount (-1)
       (ps.set_heap (alter (PS_RemoveThread tid) proc (ps.heap s)) s))
  end.

(** [snapshotter.RemoveModule]. *)
Definition RemoveModule (pid : Z) (module : string) (s : ps.snapshotter)
    : option error * ps.snapshotter :=
  match ps.procs s !! pid with
  | None => (None, s)
  | Some proc =>
    (None,
     ps.add_moduleCount (-1)
       (ps.set_heap (alter (PS_RemoveModule module) proc (ps.heap s)) s))
  end.

(** [snapshotter.onHandleCreated], with no other operation between its read
    of the index and its write. *)
Definition onHandleCreated (pid : Z) (handle : pstypes.Handle)
    (s : ps.snapshotter) : ps.snapshotter :=
  match ps.procs s !! pid with
  | Some proc =>
    ps.set_procs (<[pid := proc]> (ps.procs s))
      (ps.set_heap (alter (PS_AddHandle handle) proc (ps.heap s)) s)
  | None => s
  end.

(** [snapshotter.onHandleDestroyed], likewise. *)
Definition onHandleDestroyed (pid : Z) (rawHandle : Z) (s : ps.snapshotter)
    : ps.snapshotter :=
  match ps.procs s !! pid with
  | Some proc =>
    ps.set_procs (<[pid := proc]> (ps.procs s))
      (ps.set_heap (alter (PS_RemoveHandle rawHandle) proc (ps.heap s)) s)
  | None => s
  end.

End operations.

End pssnap.

(** *** Releasing the resolver (the second file of src/unnamed/part_001) *)

Module resolver.

Section close.
Context {X : Type} `{!handle.OS X}.

(** [CloseTimeout]. *)
Definition CloseTimeout (st : handle.State X) : option error * handle.State X :=
  let '(r1, st1) := handle.call (handle.CloseHandle (handle.ini st)) st in
  match handle.ret_err r1 with
  | Some _ =>
    let '(r2, st2) := handle.call (handle.CloseHandle (handle.done st1)) st1 in
    (handle.ret_err r2, st2)
  | None =>
    let '(r2, st2) := handle.call (handle.CloseHandle (handle.done st1)) st1 in
    match handle.ret_err r2 with
    | Some _ =>
      let '(r3, st3) := handle.call (handle.CloseHandle (handle.thread st2)) st2 in
      (handle.ret_err r3, st3)
    | None =>
      let '(r3, st3) := handle.call (handle.CloseHandle (handle.thread st2)) st2 in
      (handle.ret_err r3, st3)
    end
  end.

End close.

End resolver.

(** ** Further definitions used to state the properties *)

(** An error as the chain reports the failure of a processor: it names the
    processor and wraps an error that is not the cancel-upstream
    sentinel. *)
Definition reported (err : error) : Prop :=
  exists name cause,
    err = ErrProcessorFailed name cause /\ IsCancelUpstreamKevent cause = false.

(** What holds of the pending table of the handle processor: every event
    in it is a CreateHandle whose HandleObjectName parameter is the empty
    string and whose HandleObject parameter is the pointer it is kept
    under. *)
Definition pending_ok {X : Type} (h : processors.handleProcessor X) : Prop :=
  forall object evt,
    processors.objects h !! object = Some evt ->
    Typ evt = ktypes.CreateHandle
    /\ (exists t, Kparams_ evt !! kparams.HandleObjectName
                  = Some (mkKparam t (VString "")))
    /\ GetUint64 kparams.HandleObject (Kparams_ evt) = Ok object.

(** The loaded drivers whose file's base name is the driver name, whatever
    the case. *)
Definition matching `{!processors.HandleDeps X} (driverName : string)
    (drivers : list processors.Driver) : list processors.Driver :=
  filter (fun drv =>
            processors.strings_EqualFold
              (processors.filepath_Base (processors.Filename drv)) driverName
            = true) drivers.

(** The record the index holds for a PID is in the store and carries that
    PID. *)
Definition keyed (s : ps.snapshotter) : Prop :=
  forall pid l,
    ps.procs s !! pid = Some l ->
    exists rec, ps.heap s !! l = Some rec /\ pstypes.PID rec = pid.

Section consumer_more_defs.
Context {W R : Type} `{!kstream.Deps W R}.

(** A counter after [n] increments by one. *)
Definition counter_after (n : nat) (c : Z) : Z :=
  Nat.iter n (fun c => Int_Add c 1) c.

(** The sequencer after [n] increments. *)
Definition sequencer_after (n : nat) (seq : Z) : Z :=
  Nat.iter n kstream.Sequencer_Increment seq.

(** The deliveries of events that are not state events. *)
Definition numbered (ds : list (kstream.Sink * Kevent)) : list (kstream.Sink * Kevent) :=
  filter (fun d => kstream.IsState d.2 = false) ds.

(** The events of a list of deliveries that went onto the channel. *)
Definition sent (ds : list (kstream.Sink * Kevent)) : list Kevent :=
  omap (fun d => match d with (kstream.Channel, e) => Some e | _ => None end) ds.

(** What holds of an event the consumer [k] delivers: it is not of the
    agent's own process, its type is not excluded, and it is a state event
    only when the consumer captures. *)
Definition passes (k : kstream.kstreamConsumer W) (d : kstream.Sink * Kevent)
    : Prop :=
  PID d.2 <> kstream.currentPid
  /\ kstream.ExcludeKevent d.2 = false
  /\ (kstream.IsState d.2 = true -> kstream.capture k = true).

(** The consumer [k'] is [k] after the deliveries [ds]: each passes the
    drop rules, the sequencer has advanced once for each that is not a
    state event, and the counter of enqueued events once for each that
    went onto the channel. *)
Definition accounted (k k' : kstream.kstreamConsumer W)
    (ds : list (kstream.Sink * Kevent)) : Prop :=
  kstream.delivered k' = kstream.delivered k ++ ds
  /\ Forall (passes k) ds
  /\ kstream.sequencer k' = sequencer_after (length (numbered ds)) (kstream.sequencer k)
  /\ kstream.keventsEnqueued k'
     = counter_after (length (sent ds)) (kstream.keventsEnqueued k)
  /\ kstream.capture k' = kstream.capture k.

End consumer_more_defs.

(** ** Further scenarios *)

Module examples.

(** *** Resolver *)

(** The state of the operating system is whether all is well.  If so the
    worker answers every wait at once and has left a device path; if not,
    waits fail with an error that is not the timeout, and handles cannot
    be closed. *)
Definition workerOS : handle.OS bool := {|
  handle.os := fun c (x : bool) =>
    match c with
    | handle.CreateThread => (handle.mkRet 7 None, x)
    | handle.WaitForSingleObject _ _ =>
      if x then (handle.mkRet 0 None, x)
      else (handle.mkRet 0xFFFFFFFF (Some (Errno 6)), x)
    | handle.CloseHandle _ =>
      (handle.mkRet 0 (if x then None else Some (Errno 6)), x)
    | _ => (handle.mkRet 0 None, x)
    end;
  handle.objectNameInCallback := fun (x : bool) =>
    if x then "\Device\HarddiskVolume1\pagefile.sys"%string else ""%string
|}.

(** The worker thread 7 is alive; init event 1, done event 2. *)
Definition resolver1 (well : bool) : handle.State bool :=
  handle.mkState 7 None 1 2 0 well [].

(** *** Handle processor *)

(** A handle event without parameters. *)
Definition bareHandle : Kevent :=
  mkKevent 0 0 ktypes.Handle ktypes.CreateHandle 100 1 None ∅.

(** *** Process processor and snapshotter *)

(** Command lines are strings; a process without a command line gets its
    name for one.  The process 200 cannot be opened; the start time of any
    other is its handle plus 1000. *)
Definition psprocDeps : psproc.Deps string := {|
  psproc.cmdline_New := fun s => s;
  psproc.CleanExe := fun c => c;
  psproc.ExpandSystemRoot := fun c => c;
  psproc.CompleteSysProc := fun name c => if String.eqb c "" then name else c;
  psproc.Exeline := fun c => c;
  psproc.Cmdline_String := fun c => c;
  psproc.MustGetPid := fun kpars => or_zero 0 (GetPid kpars);
  psproc.process_Open := fun pid =>
    if pid =? 200 then Err (Errno 5) else Ok (pid * 10);
  psproc.process_GetStartTime := fun h => Ok (h + 1000);
  psproc.time_Now := 999999
|}.

(** Records lose a thread by its id, a module by its name and a handle by
    its number, and gain a handle at the end. *)
Definition recordOps : pssnap.RecordOps := {|
  pssnap.PS_RemoveThread := fun tid p =>
    pstypes.mkPS (pstypes.PID p) (pstypes.Ppid p) (pstypes.Name p)
      (pstypes.Cmdline p) (pstypes.Exe p) (pstypes.SID p) (pstypes.SessionID p)
      (pstypes.PE p) (pstypes.Cwd p) (pstypes.Envs p) (pstypes.Parent p)
      (List.filter (fun t => negb (pstypes.Tid t =? tid)) (pstypes.Threads p))
      (pstypes.Modules p) (pstypes.Handles p);
  pssnap.PS_RemoveModule := fun name p =>
    pstypes.mkPS (pstypes.PID p) (pstypes.Ppid p) (pstypes.Name p)
      (pstypes.Cmdline p) (pstypes.Exe p) (pstypes.SID p) (pstypes.SessionID p)
      (pstypes.PE p) (pstypes.Cwd p) (pstypes.Envs p) (pstypes.Parent p)
      (pstypes.Threads p)
      (List.filter (fun m => negb (String.eqb (pstypes.ModuleName m) name))
         (pstypes.Modules p))
      (pstypes.Handles p);
  pssnap.PS_AddHandle := fun hdl p =>
    pstypes.set_Handles (pstypes.Handles p ++ [hdl]) p;
  pssnap.PS_RemoveHandle := fun num p =>
    pstypes.set_Handles
      (List.filter (fun hdl => negb (pstypes.Num hdl =? num)) (pstypes.Handles p)) p
|}.

(** A thread event of thread [tid] of process [pid]; it has no parent
    PID. *)
Definition threadEvent (typ : ktypes.Ktype) (pid tid : Z) : Kevent :=
  mkKevent 0 0 (ktypes.OtherCategory 2) typ pid tid None
    (list_to_map
       [(kparams.ProcessID, mkKparam kparams.Uint32 (VUint32 pid));
        (kparams.ThreadID, mkKparam kparams.Uint32 (VUint32 tid))]).

(** An image event of process [pid]. *)
Definition imageEvent (typ : ktypes.Ktype) (pid : Z) (filename : string) : Kevent :=
  mkKevent 0 0 (ktypes.OtherCategory 3) typ pid 1 None
    (list_to_map
       [(kparams.ProcessID, mkKparam kparams.Uint32 (VUint32 pid));
        (kparams.ImageFilename, mkKparam kparams.UnicodeString (VString filename))]).

End examples.

(** * Properties *)

(** ** The processor chain *)

Section chain_props.
Context {W : Type}.
Implicit Types (ps pre post : list (processors.Processor W)).
Implicit Types (s : processors.Env W) (os : list (ProcessorType * processors.Outcome)).

Lemma failures_after_S n c :
  failures_after n (Int_Add c 1) = failures_after (S n) c.
Proof.
  unfold failures_after. induction n as [|n IH]; simpl; [done|].
  by rewrite IH.
Qed.

Lemma after_walk_Wrap (out : option Kevent) (errs : list error) s :
  processors.after_walk out errs s = (out, multierror_Wrap errs, s).
Proof. by destruct errs. Qed.

Lemma collected_cons_err name (o : processors.Outcome) e os :
  processors.o_err o = Some e ->
  processors.collected ((name, o) :: os)
  = ErrProcessorFailed name e :: processors.collected os.
Proof. intros He. unfold processors.collected. simpl. by rewrite He. Qed.

Lemma collected_cons_ok name (o : processors.Outcome) os :
  processors.o_err o = None ->
  processors.collected ((name, o) :: os) = processors.collected os.
Proof. intros He. unfold processors.collected. simpl. by rewrite He. Qed.

Lemma last_output_cons x os :
  processors.last_output (x :: os)
  = match processors.last_output os with
    | Some o => Some o
    | None => Some (processors.o_output x.2)
    end.
Proof.
  unfold processors.last_output.
  destruct os as [|y os]; [by destruct x|].
  change (last (x :: y :: os)) with (last (y :: os)).
  destruct (last (y :: os)) as [[? ?]|] eqn:E; [done|].
  by apply last_None in E.
Qed.

(** A walk over a prefix all of whose outcomes let the walk go on is the
    walk over the rest, from the event and state the prefix leaves, with the
    prefix's errors collected. *)
Lemma walk_prefix pre : forall post kevt out errs s os kevt1 w1,
  processors.run_all pre kevt (processors.world s) = (os, kevt1, w1) ->
  forallb (fun x => processors.continues x.2) os = true ->
  processors.walk (pre ++ post) kevt out errs s
  = processors.walk post kevt1
      (match processors.last_output os with Some o => Some o | None => out end)
      (errs ++ processors.collected os)
      (processors.mkEnv w1
         (failures_after (length (processors.collected os))
            (processors.processorFailures s))).
Proof.
  induction pre as [|p pre IH]; intros post kevt out errs s os kevt1 w1 Hrun Hall.
  - simpl in Hrun. injection Hrun as <- <- <-. simpl.
    rewrite app_nil_r. by destruct s.
  - simpl in Hrun.
    destruct (processors.ProcessEvent p kevt (processors.world s)) as [o w] eqn:Hp.
    destruct (processors.run_all pre (processors.o_kevt o) w)
      as [[os' kevt2] w2] eqn:Hrest.
    injection Hrun as <- <- <-.
    simpl in Hall. apply andb_prop in Hall as [Hc Hall].
    unfold processors.continues in Hc.
    rewrite last_output_cons.
    change ((p :: pre) ++ post) with (p :: (pre ++ post)).
    cbn [processors.walk]. rewrite Hp.
    destruct (processors.o_err o) as [e|] eqn:He.
    + rewrite Hc.
      rewrite (IH post _ _ _ (processors.mkEnv w _) os' kevt2 w2 Hrest Hall).
      rewrite (collected_cons_err _ _ e) by done.
      rewrite <- app_assoc. cbn [length app processors.processorFailures snd].
      rewrite failures_after_S.
      by destruct (processors.last_output os').
    + rewrite Hc. cbn [negb].
      rewrite (IH post _ _ _ (processors.mkEnv w _) os' kevt2 w2 Hrest Hall).
      rewrite collected_cons_ok by done.
      cbn [processors.processorFailures snd].
      by destruct (processors.last_output os').
Qed.

(** C4.  Let every processor of [pre] return either an error that is not the
    cancel-upstream sentinel (whatever its [next]) or no error with [next]
    set.  Then (1) a chain made of [pre] runs every one of them and returns
    the last output with the errors of all of them merged by
    [multierror.Wrap] (none when none failed), having counted each failure;
    (2) when the processor [p] that follows [pre] returns the
    cancel-upstream sentinel, the chain returns at once what [p] returned
    with that sentinel: the result does not depend on the processors [post]
    behind [p], none of which runs; and (3) when [p] returns no error and
    [next] unset, the chain stops there as well and returns what [p]
    returned with the errors of [pre] merged. *)
Theorem chain_ProcessEvent_collects_and_cancels
    pre (p : processors.Processor W) post kevt s os kevt1 w1 :
  processors.run_all pre kevt (processors.world s) = (os, kevt1, w1) ->
  forallb (fun x => processors.continues x.2) os = true ->
  processors.chain_ProcessEvent (processors.mkChain pre) kevt s
  = (processors.last_output os,
     multierror_Wrap (processors.collected os),
     processors.mkEnv w1
       (failures_after (length (processors.collected os))
          (processors.processorFailures s)))
  /\ length os = length pre
  /\ (forall o w2 e,
       processors.ProcessEvent p kevt1 w1 = (o, w2) ->
       processors.o_err o = Some e ->
       IsCancelUpstreamKevent e = true ->
       processors.chain_ProcessEvent (processors.mkChain (pre ++ p :: post)) kevt s
       = (Some (processors.o_output o), Some e,
          processors.mkEnv w2
            (failures_after (length (processors.collected os))
               (processors.processorFailures s))))
  /\ (forall o w2,
       processors.ProcessEvent p kevt1 w1 = (o, w2) ->
       processors.o_err o = None ->
       processors.o_next o = false ->
       processors.chain_ProcessEvent (processors.mkChain (pre ++ p :: post)) kevt s
       = (Some (processors.o_output o),
          multierror_Wrap (processors.collected os),
          processors.mkEnv w2
            (failures_after (length (processors.collected os))
               (processors.processorFailures s)))).
Proof.
  intros Hrun Hall. split; [|split; [|split]].
  - unfold processors.chain_ProcessEvent. simpl.
    rewrite <- (app_nil_r pre).
    rewrite (walk_prefix pre [] kevt None [] s os kevt1 w1 Hrun Hall).
    simpl. rewrite after_walk_Wrap.
    by destruct (processors.last_output os).
  - clear Hall. revert kevt s os kevt1 w1 Hrun.
    induction pre as [|q pre IH]; intros kevt s os kevt1 w1 Hrun; simpl in Hrun.
    + by injection Hrun as <- _ _.
    + destruct (processors.ProcessEvent q kevt (processors.world s)) as [o w].
      destruct (processors.run_all pre (processors.o_kevt o) w)
        as [[os' kevt2] w2] eqn:Hrest.
      injection Hrun as <- _ _. simpl. f_equal.
      by apply (IH (processors.o_kevt o) (processors.mkEnv w 0) os' kevt2 w2).
  - intros o w2 e Hp He Hcancel.
    unfold processors.chain_ProcessEvent. simpl.
    rewrite (walk_prefix pre (p :: post) kevt None [] s os kevt1 w1 Hrun Hall).
    simpl. rewrite Hp, He, Hcancel. simpl. done.
  - intros o w2 Hp He Hnext.
    unfold processors.chain_ProcessEvent. simpl.
    rewrite (walk_prefix pre (p :: post) kevt None [] s os kevt1 w1 Hrun Hall).
    simpl. rewrite Hp, He, Hnext. simpl. by rewrite after_walk_Wrap.
Qed.

End chain_props.

Lemma Close_loop_calls {W : Type} (ps : list (processors.Processor W)) (w : W) :
  processors.Close_loop ps w
  = (processors.Name <$> ps,
     fold_left (fun w p => processors.Close p w) ps w).
Proof.
  revert w. induction ps as [|p ps IH]; intros w; [done|].
  simpl. by rewrite IH.
Qed.

Lemma addProcessor_fold {W : Type} (regs : list (option (processors.Processor W)))
    (c : processors.chain W) :
  processors.chain_processors
    (fold_left (fun c p => processors.addProcessor p c) regs c)
  = processors.chain_processors c ++ omap id regs.
Proof.
  revert c. induction regs as [|[p|] regs IH]; intros c; simpl.
  - by rewrite app_nil_r.
  - rewrite IH. simpl. by rewrite <- app_assoc.
  - by rewrite IH.
Qed.

(** C9 (as amended).  A chain holds its processors in the order of their
    registration (a nil processor is not registered), and [Close] calls
    [Close] on every one of them once, in that order, from the first
    registered to the last, and returns no error. *)
Theorem chain_Close_in_registration_order {W : Type}
    (regs : list (option (processors.Processor W))) (w : W) :
  let c := fold_left (fun c p => processors.addProcessor p c) regs
             (processors.mkChain []) in
  processors.chain_processors c = omap id regs
  /\ processors.chain_Close c w
     = (processors.Name <$> omap id regs,
        fold_left (fun w p => processors.Close p w) (omap id regs) w,
        None).
Proof.
  simpl. rewrite (addProcessor_fold regs (processors.mkChain [])). simpl.
  split; [done|].
  unfold processors.chain_Close.
  rewrite (addProcessor_fold regs (processors.mkChain [])). simpl.
  by rewrite Close_loop_calls.
Qed.

(** The process processor registered first and the handle processor second
    are closed in that order, not in the reverse one. *)
Lemma chain_Close_not_in_reverse_order :
  (processors.chain_Close
     (processors.addProcessor (Some (scenario.passing Handle))
        (processors.addProcessor (Some (scenario.passing Ps))
           (processors.mkChain [])))
     tt).1.1
  = [Ps; Handle]
  /\ rev [Ps; Handle] = [Handle; Ps]
  /\ [Ps; Handle] <> rev [Ps; Handle].
Proof. split; [reflexivity|]. split; [reflexivity|]. discriminate. Qed.

(** A failing processor, a passing one, a cancelling one and one more. *)
Lemma chain_ProcessEvent_collects_and_cancels_witness :
  processors.chain_ProcessEvent
    (processors.mkChain [scenario.failing; scenario.passing Ps])
    (scenario.other 100) (processors.mkEnv tt 0)
  = (Some (scenario.other 100),
     Some (ErrMulti [ErrProcessorFailed (OtherProcessor 1) (ErrNew "lookup failed")]),
     processors.mkEnv tt 1)
  /\ processors.chain_ProcessEvent
       (processors.mkChain
          [scenario.failing; scenario.passing Ps; scenario.cancelling;
           scenario.passing Handle])
       (scenario.other 100) (processors.mkEnv tt 0)
     = (Some (scenario.other 100), Some ErrCancelUpstreamKevent,
        processors.mkEnv tt 1).
Proof.
  destruct (chain_ProcessEvent_collects_and_cancels
              [scenario.failing; scenario.passing Ps] scenario.cancelling
              [scenario.passing Handle] (scenario.other 100)
              (processors.mkEnv tt 0) _ _ _ eq_refl eq_refl)
    as (Hall & _ & Hcancel & _).
  split; [exact Hall|].
  exact (Hcancel _ _ _ eq_refl eq_refl eq_refl).
Defined.

(** ** The handle processor *)

Section handle_props.
Context {X : Type} `{!processors.HandleDeps X}.
Implicit Types (e evt : Kevent) (h : processors.handleProcessor X).
Implicit Types (r : processors.Resolved) (x : X).

Lemma SetValue_Ok name v (kpars kpars' : Kparams) :
  Kparams_SetValue name v kpars = Ok kpars' ->
  exists kpar, kpars !! name = Some kpar
    /\ kpars' = <[name := mkKparam (KpType kpar) v]> kpars.
Proof.
  unfold Kparams_SetValue. destruct (kpars !! name) as [kpar|]; [|done].
  intros [= <-]. by exists kpar.
Qed.

(** What a successful first part of [processEvent] guarantees: the event
    keeps its header fields, it carries the formatted name in its
    HandleObjectName parameter, and the object pointer is the event's
    HandleObject parameter. *)
Lemma resolve_inr e x r x' :
  processors.resolve e x = (inr r, x') ->
  Typ (processors.r_kevt r) = Typ e
  /\ Seq (processors.r_kevt r) = Seq e
  /\ PID (processors.r_kevt r) = PID e
  /\ GetUint64 kparams.HandleObject (Kparams_ e) = Ok (processors.r_object r)
  /\ exists t, Kparams_ (processors.r_kevt r) !! kparams.HandleObjectName
       = Some (mkKparam t (VString (processors.r_name r))).
Proof.
  unfold processors.resolve. intros Hres.
  repeat case_match; simplify_eq. simpl.
  repeat split; try done.
  match goal with H : Kparams_SetValue _ _ _ = Ok _ |- _ =>
    apply SetValue_Ok in H as (kpar & ? & ->) end.
  eexists. by rewrite lookup_insert_eq.
Qed.



End handle_props.



(** ** The handle-name resolver *)

Section resolver_props.
Context {X : Type} `{!handle.OS X}.
Implicit Types (st : handle.State X).

Lemma call_fields c st :
  let st' := (handle.call c st).2 in
  handle.thread st' = handle.thread st
  /\ handle.ini st' = handle.ini st
  /\ handle.done st' = handle.done st
  /\ handle.waitTimeoutCounts st' = handle.waitTimeoutCounts st
  /\ handle.calls st' = handle.calls st ++ [c]
  /\ handle.sys st' = (handle.os c (handle.sys st)).2.
Proof. unfold handle.call. by destruct (handle.os c (handle.sys st)). Qed.

Lemma call_eq c st r x :
  handle.os c (handle.sys st) = (r, x) ->
  handle.call c st
  = (r, handle.mkState (handle.thread st) (handle.rawHandle st) (handle.ini st)
          (handle.done st) (handle.waitTimeoutCounts st) x
          (handle.calls st ++ [c])).
Proof. unfold handle.call. by intros ->. Qed.

(** Signalling the worker leaves the timeout counter alone. *)
Lemma signal_counter hdl st res st1 :
  handle.signal hdl st = (res, st1) ->
  handle.waitTimeoutCounts st1 = handle.waitTimeoutCounts st.
Proof.
  unfold handle.signal, handle.call. intros Hs.
  repeat (case_match; simplify_eq; simpl in *); done.
Qed.

Lemma call_inv c st r st' :
  handle.call c st = (r, st') ->
  handle.thread st' = handle.thread st
  /\ handle.ini st' = handle.ini st
  /\ handle.done st' = handle.done st
  /\ handle.waitTimeoutCounts st' = handle.waitTimeoutCounts st
  /\ handle.calls st' = handle.calls st ++ [c].
Proof.
  intros Hc. pose proof (call_fields c st) as Hf. rewrite Hc in Hf.
  simpl in Hf. tauto.
Qed.

(** Name the result of the next call in the goal and record what the call
    left unchanged. *)
Ltac step_call :=
  match goal with
  | |- context [handle.call ?c ?s] =>
    let r := fresh "r" in
    let s' := fresh "st" in
    let H := fresh "Hcall" in
    destruct (handle.call c s) as [r s'] eqn:H;
    apply call_inv in H; simpl in H;
    destruct H as (? & ? & ? & ? & ?)
  end.

(** The calls made are only ever added to. *)
Lemma await_calls timeout st :
  exists rest,
    handle.calls (handle.await timeout st).2 = handle.calls st ++ rest.
Proof.
  unfold handle.await.
  repeat (first [step_call | case_match]; simpl);
    eexists; repeat match goal with H : handle.calls _ = _ |- _ => rewrite H end;
    rewrite <- ?app_assoc; reflexivity.
Qed.



End resolver_props.



(** ** The process snapshotter *)

Lemma to_int64_small z : - 2 ^ 63 <= z < 2 ^ 63 -> to_int64 z = z.
Proof. intros Hz. unfold to_int64. rewrite Z.mod_small; lia. Qed.

Section snapshotter_props.
Context `{!ps.Deps}.
Implicit Types (s : ps.snapshotter) (e : Kevent).

Lemma reapOne_lookup pid (acc : gmap Z loc) i :
  ps.reapOne pid acc !! i
  = if decide (i = pid) then (if dead pid then None else acc !! i) else acc !! i.
Proof.
  unfold ps.reapOne, dead.
  destruct (ps.OpenProcess _ pid) as [proc|err]; [|by case_decide; subst].
  destruct (ps.IsProcessRunning proc); simpl; [by case_decide; subst|].
  case_decide; subst; [apply lookup_delete_eq|by apply lookup_delete_ne].
Qed.

(** The sweep of the reaper removes exactly the dead entries. *)
Lemma reap_fold_lookup (procs : gmap Z loc) pid :
  map_fold (fun pid _ acc => ps.reapOne pid acc) procs procs !! pid
  = if dead pid then None else procs !! pid.
Proof.
  assert (forall (m : gmap Z loc) i,
    map_fold (fun pid _ acc => ps.reapOne pid acc) procs m !! i
    = match m !! i with
      | Some _ => if dead i then None else procs !! i
      | None => procs !! i
      end) as Hfold.
  { intros m.
    apply (map_fold_weak_ind (fun (r : gmap Z loc) (m : gmap Z loc) =>
      forall i, r !! i
        = match m !! i with
          | Some _ => if dead i then None else procs !! i
          | None => procs !! i
          end)).
    - intros i. by rewrite lookup_empty.
    - intros k x m' r Hk IH i. rewrite reapOne_lookup, IH.
      destruct (decide (i = k)) as [->|Hne].
      + rewrite Hk, lookup_insert_eq. by destruct (dead k).
      + by rewrite lookup_insert_ne. }
  rewrite Hfold. destruct (procs !! pid) eqn:E; [done|].
  by destruct (dead pid).
Qed.

Lemma reap_fold_filter (procs : gmap Z loc) :
  map_fold (fun pid _ acc => ps.reapOne pid acc) procs procs
  = filter (fun kv => ~ dead kv.1 = true) procs.
Proof.
  apply map_eq. intros i. rewrite reap_fold_lookup.
  apply option_eq. intros l. rewrite map_lookup_filter_Some. simpl.
  destruct (dead i); [|by intuition].
  split; [done|]. by intros [_ Hd].
Qed.

Lemma reap_fold_size (procs : gmap Z loc) :
  (size (map_fold (fun pid _ acc => ps.reapOne pid acc) procs procs)
   + size (dead_entries procs) = size procs)%nat.
Proof.
  rewrite reap_fold_filter. unfold dead_entries.
  rewrite <- (map_filter_union_complement (fun kv => dead kv.1 = true) procs) at 3.
  rewrite map_size_disj_union by apply map_disjoint_filter_complement.
  lia.
Qed.

(** Go hands out the keys of a map in an order of its choosing.  The body of
    the reaper's loop touches only the entry of the PID it is run for, so the
    sweep leaves the same index whatever the order. *)
Lemma reap_any_order (order : list Z) (procs : gmap Z loc) :
  order ≡ₚ (map_to_list procs).*1 ->
  fold_left (fun acc pid => ps.reapOne pid acc) order procs
  = map_fold (fun pid _ acc => ps.reapOne pid acc) procs procs.
Proof.
  intros Hperm.
  assert (forall (l : list Z) (acc : gmap Z loc) i,
    fold_left (fun acc pid => ps.reapOne pid acc) l acc !! i
    = if bool_decide (i ∈ l) && dead i then None else acc !! i) as Hfold.
  { induction l as [|pid l IH]; intros acc i; cbn [fold_left].
    - by rewrite bool_decide_eq_false_2 by apply not_elem_of_nil.
    - rewrite IH, reapOne_lookup.
      destruct (decide (i = pid)) as [->|Hne].
      + rewrite (bool_decide_eq_true_2 (pid ∈ pid :: l)) by apply list_elem_of_here.
        simpl. destruct (dead pid); [|by rewrite andb_false_r].
        by destruct (bool_decide (pid ∈ l)).
      + assert (bool_decide (i ∈ pid :: l) = bool_decide (i ∈ l)) as ->; [|done].
        apply bool_decide_ext. rewrite elem_of_cons. by intuition. }
  apply map_eq. intros i. rewrite Hfold, reap_fold_lookup.
  destruct (dead i); [|by rewrite andb_false_r].
  rewrite andb_true_r. case_bool_decide as Hin; [done|].
  destruct (procs !! i) as [l|] eqn:Hl; [|done].
  destruct Hin. rewrite Hperm. apply list_elem_of_fmap.
  exists (i, l). split; [done|]. by apply elem_of_map_to_list.
Qed.

(** C6.  One sweep of the reaper over an index (of fewer than 2^63 records,
    as every index is): a record whose process cannot be opened with
    limited-information rights is kept; a record whose process opens and is
    reported not running is removed; a record is removed only in that case;
    and process.reaped grows by the number of records removed.  The
    records themselves are not touched. *)
Theorem gcTick_reaps_dead_only s :
  Z.of_nat (size (ps.procs s)) < 2 ^ 63 ->
  let s' := ps.gcTick s in
  (forall pid l err,
      ps.procs s !! pid = Some l ->
      ps.OpenProcess ps.PROCESS_QUERY_LIMITED_INFORMATION pid = Err err ->
      ps.procs s' !! pid = Some l)
  /\ (forall pid l proc,
      ps.procs s !! pid = Some l ->
      ps.OpenProcess ps.PROCESS_QUERY_LIMITED_INFORMATION pid = Ok proc ->
      ps.IsProcessRunning proc = false ->
      ps.procs s' !! pid = None)
  /\ (forall pid l,
      ps.procs s !! pid = Some l ->
      ps.procs s' !! pid = Some l
      \/ ps.procs s' !! pid = None
         /\ exists proc,
              ps.OpenProcess ps.PROCESS_QUERY_LIMITED_INFORMATION pid = Ok proc
              /\ ps.IsProcessRunning proc = false)
  /\ (forall pid, ps.procs s !! pid = None -> ps.procs s' !! pid = None)
  /\ (size (ps.procs s') + size (dead_entries (ps.procs s)) = size (ps.procs s))%nat
  /\ ps.reapedProcesses s'
     = (if (0 <? size (dead_entries (ps.procs s)))%nat
        then Int_Add (ps.reapedProcesses s)
               (Z.of_nat (size (dead_entries (ps.procs s))))
        else ps.reapedProcesses s)
  /\ ps.heap s' = ps.heap s.
Proof.
  intros Hsize s'.
  pose proof (reap_fold_size (ps.procs s)) as Hsz.
  assert (forall pid, ps.procs s' !! pid
            = if dead pid then None else ps.procs s !! pid) as Hlook.
  { intros pid. subst s'. unfold ps.gcTick.
    destruct (_ <? _)%nat; simpl; apply reap_fold_lookup. }
  assert (ps.procs s'
          = map_fold (fun pid _ acc => ps.reapOne pid acc) (ps.procs s) (ps.procs s))
    as Hprocs.
  { subst s'. unfold ps.gcTick. by destruct (_ <? _)%nat. }
  repeat split.
  - intros pid l err Hin Hopen. rewrite Hlook. unfold dead. by rewrite Hopen.
  - intros pid l proc Hin Hopen Hrun. rewrite Hlook. unfold dead.
    by rewrite Hopen, Hrun.
  - intros pid l Hin. rewrite Hlook. unfold dead.
    destruct (ps.OpenProcess _ pid) as [proc|err]; [|by left].
    destruct (ps.IsProcessRunning proc) eqn:Hrun; [by left|].
    right. split; [done|]. by exists proc.
  - intros pid Hnone. rewrite Hlook, Hnone. by destruct (dead pid).
  - by rewrite Hprocs.
  - subst s'. unfold ps.gcTick.
    set (procs1 := map_fold _ _ _) in *.
    destruct (size procs1 <? size (ps.procs s))%nat eqn:Hlt.
    + apply Nat.ltb_lt in Hlt.
      assert (0 < size (dead_entries (ps.procs s)))%nat as Hpos by lia.
      apply Nat.ltb_lt in Hpos. rewrite Hpos. simpl.
      rewrite to_int64_small by lia. f_equal. lia.
    + apply Nat.ltb_ge in Hlt.
      assert (size (dead_entries (ps.procs s)) = 0)%nat as -> by lia.
      done.
  - subst s'. unfold ps.gcTick. by destruct (_ <? _)%nat.
Qed.

Lemma orphan_lookup pid l (hp : gmap loc pstypes.PS) l' :
  ps.orphan pid l hp !! l'
  = if decide (l' = l) then orphaned pid <$> hp !! l else hp !! l'.
Proof.
  unfold ps.orphan, orphaned.
  destruct (decide (l' = l)) as [->|Hne].
  - destruct (hp !! l) as [rec|] eqn:E; simpl; [|done].
    destruct (pstypes.Ppid rec =? pid); [by rewrite lookup_insert_eq|done].
  - destruct (hp !! l) as [rec|] eqn:E; [|done].
    destruct (pstypes.Ppid rec =? pid); [by rewrite lookup_insert_ne|done].
Qed.

Lemma orphaned_idemp pid rec : orphaned pid (orphaned pid rec) = orphaned pid rec.
Proof.
  unfold orphaned. destruct (pstypes.Ppid rec =? pid) eqn:E; simpl; [|by rewrite E].
  by rewrite E.
Qed.

(** The loop of [Remove] orphans the records the index points to and leaves
    the others. *)
Lemma orphan_fold pid (hp : gmap loc pstypes.PS) (procs : gmap Z loc) :
  let hp' := map_fold (fun _ l acc => ps.orphan pid l acc) hp procs in
  forall l,
    ((exists q, procs !! q = Some l) -> hp' !! l = orphaned pid <$> hp !! l)
    /\ ((forall q, procs !! q <> Some l) -> hp' !! l = hp !! l).
Proof.
  simpl. intros l0.
  cut (forall l,
      (map_fold (fun _ l acc => ps.orphan pid l acc) hp procs !! l = hp !! l
       \/ map_fold (fun _ l acc => ps.orphan pid l acc) hp procs !! l
          = orphaned pid <$> hp !! l)
      /\ ((exists q, procs !! q = Some l) ->
          map_fold (fun _ l acc => ps.orphan pid l acc) hp procs !! l
          = orphaned pid <$> hp !! l)
      /\ ((forall q, procs !! q <> Some l) ->
          map_fold (fun _ l acc => ps.orphan pid l acc) hp procs !! l = hp !! l)).
  { intros Hall. destruct (Hall l0) as (_ & ? & ?). by split. }
  clear l0.
  apply (map_fold_weak_ind (fun (r : gmap loc pstypes.PS) (m : gmap Z loc) =>
    forall l,
      (r !! l = hp !! l \/ r !! l = orphaned pid <$> hp !! l)
      /\ ((exists q, m !! q = Some l) -> r !! l = orphaned pid <$> hp !! l)
      /\ ((forall q, m !! q <> Some l) -> r !! l = hp !! l))).
  - intros l. split; [by left|]. split; [|done].
    intros [q Hq]. by rewrite lookup_empty in Hq.
  - intros k x m r Hk IH l. rewrite orphan_lookup.
    destruct (IH l) as (Hor & Hin & Hout).
    assert (orphaned pid <$> r !! x = orphaned pid <$> hp !! x) as Hx.
    { destruct (IH x) as ([->| ->] & _ & _); [done|].
      destruct (hp !! x); simpl; [|done]. by rewrite orphaned_idemp. }
    destruct (decide (l = x)) as [->|Hne].
    + rewrite Hx. split; [by right|]. split; [done|].
      intros Hno. by destruct (Hno k); rewrite lookup_insert_eq.
    + split; [done|]. split.
      * intros [q Hq]. apply Hin.
        destruct (decide (q = k)) as [->|Hqk].
        -- rewrite lookup_insert_eq in Hq. congruence.
        -- rewrite lookup_insert_ne in Hq by done. by exists q.
      * intros Hno. apply Hout. intros q Hq. apply (Hno q).
        destruct (decide (q = k)) as [->|Hqk]; [congruence|].
        by rewrite lookup_insert_ne.
Qed.

(** The loop of [Remove] too leaves the same records whatever the order in
    which the map hands out its entries. *)
Lemma orphan_any_order pid (entries : list (Z * loc)) (hp : gmap loc pstypes.PS)
    (procs : gmap Z loc) :
  entries ≡ₚ map_to_list procs ->
  fold_left (fun acc kv => ps.orphan pid kv.2 acc) entries hp
  = map_fold (fun _ l acc => ps.orphan pid l acc) hp procs.
Proof.
  intros Hperm.
  assert (forall (es : list (Z * loc)) (acc : gmap loc pstypes.PS) l,
    fold_left (fun acc kv => ps.orphan pid kv.2 acc) es acc !! l
    = if bool_decide (l ∈ es.*2) then orphaned pid <$> acc !! l else acc !! l)
    as Hfold.
  { induction es as [|[q x] es IH]; intros acc l; cbn [fold_left fmap list_fmap snd].
    - by rewrite bool_decide_eq_false_2 by apply not_elem_of_nil.
    - rewrite IH, orphan_lookup.
      destruct (decide (l = x)) as [->|Hne].
      + rewrite (bool_decide_eq_true_2 (x ∈ x :: es.*2)) by apply list_elem_of_here.
        case_bool_decide; [|done].
        destruct (acc !! x); simpl; [|done]. by rewrite orphaned_idemp.
      + assert (bool_decide (l ∈ x :: es.*2) = bool_decide (l ∈ es.*2)) as ->; [|done].
        apply bool_decide_ext. rewrite elem_of_cons. by intuition. }
  apply map_eq. intros l. rewrite Hfold.
  destruct (orphan_fold pid hp procs l) as [Hin Hout].
  case_bool_decide as Hl.
  - symmetry. apply Hin.
    apply list_elem_of_fmap in Hl as ([q x] & -> & Hqx).
    rewrite Hperm in Hqx. apply elem_of_map_to_list in Hqx. by exists q.
  - symmetry. apply Hout. intros q Hq. apply Hl.
    apply list_elem_of_fmap. exists (q, l). split; [done|].
    rewrite Hperm. by apply elem_of_map_to_list.
Qed.





End snapshotter_props.

(** Scenario 6: the reaper keeps 200, whose process cannot be opened,
    removes 201, whose process is not running, and counts one. *)
Lemma gcTick_reaps_dead_only_witness :
  Z.of_nat (size (ps.procs (scenario.snapshot false))) < 2 ^ 63
  /\ ps.procs (@ps.gcTick scenario.psDeps (scenario.snapshot false)) !! 200
     = Some 2%positive
  /\ ps.procs (@ps.gcTick scenario.psDeps (scenario.snapshot false)) !! 201 = None
  /\ ps.reapedProcesses (@ps.gcTick scenario.psDeps (scenario.snapshot false)) = 1.
Proof.
  assert (Z.of_nat (size (ps.procs (scenario.snapshot false))) < 2 ^ 63) as Hsize
    by (by vm_compute).
  destruct (@gcTick_reaps_dead_only scenario.psDeps (scenario.snapshot false) Hsize)
    as (Hkept & Hgone & _ & _ & _ & Hcount & _).
  split; [exact Hsize|]. split; [|split].
  - exact (Hkept 200 2%positive (Errno 5) eq_refl eq_refl).
  - exact (Hgone 201 3%positive 2010 eq_refl eq_refl eq_refl).
  - rewrite Hcount. by vm_compute.
Defined.





(** ** The trace consumer *)

Section consumer_props.
Context {W R : Type} `{!kstream.Deps W R}.
Implicit Types (k : kstream.kstreamConsumer W) (e : Kevent).

(** An event of the agent's own process is dropped by [isEventDropped],
    which touches nothing but the state of the collaborators. *)
Lemma isEventDropped_own_pid e k :
  PID e = kstream.currentPid ->
  exists w,
    kstream.isEventDropped e k = (true, kstream.set_world w k).
Proof.
  intros Hpid. unfold kstream.isEventDropped.
  destruct (kstream.IsState e && negb (kstream.capture k)).
  { exists (kstream.world k). by destruct k. }
  assert (kstream.CurrentPid e = true) as Hcur.
  { unfold kstream.CurrentPid. by apply Z.eqb_eq. }
  destruct (kstream.IsRundown e).
  - destruct (kstream.IsRundownProcessed e (kstream.world k)) as [processed w].
    exists w. destruct processed; [done|]. by rewrite Hcur.
  - rewrite Hcur. exists (kstream.world k). by destruct k.
Qed.

(** C1 (as amended).  In the publish path an event whose PID is the agent's
    own is never delivered: nothing is sent on the channel or handed to the
    callback, kstream.kevents.enqueued and the sequencer stay as they are
    and no error is returned.  The excluded-image check comes first:
    kstream.excluded.procs grows by one when the process found for that PID
    is an excluded image and stays as it is otherwise. *)
Theorem publishEvent_own_pid e k :
  PID e = kstream.currentPid ->
  let found := kstream.psnapshotter_Find (PID e) (kstream.world k) in
  let k' := (kstream.publishEvent e k).2 in
  (kstream.publishEvent e k).1 = None
  /\ kstream.delivered k' = kstream.delivered k
  /\ kstream.Events k' = kstream.Events k
  /\ kstream.keventsEnqueued k' = kstream.keventsEnqueued k
  /\ kstream.sequencer k' = kstream.sequencer k
  /\ kstream.excludedKevents k' = kstream.excludedKevents k
  /\ kstream.excludedProcs k'
     = if kstream.ExcludeImage found.1 found.2
       then Int_Add (kstream.excludedProcs k) 1
       else kstream.excludedProcs k.
Proof.
  intros Hpid. simpl. unfold kstream.publishEvent.
  destruct (kstream.psnapshotter_Find (PID e) (kstream.world k)) as [proc w].
  simpl. destruct (kstream.ExcludeImage proc w); [done|].
  set (e1 := match PS e with Some _ => e | None => set_PS proc e end).
  assert (PID e1 = kstream.currentPid) as Hpid1.
  { subst e1. by destruct (PS e). }
  destruct (isEventDropped_own_pid e1 (kstream.set_world w k) Hpid1) as [w1 ->].
  done.
Qed.

(** [isEventDropped] delivers nothing and leaves the sequencer and the
    callback alone. *)
Lemma isEventDropped_fields e k :
  let k' := (kstream.isEventDropped e k).2 in
  kstream.delivered k' = kstream.delivered k
  /\ kstream.sequencer k' = kstream.sequencer k
  /\ kstream.eventCallback k' = kstream.eventCallback k.
Proof.
  simpl. unfold kstream.isEventDropped.
  destruct (kstream.IsState e && negb (kstream.capture k)); [done|].
  destruct (kstream.IsRundown e).
  - destruct (kstream.IsRundownProcessed e (kstream.world k)) as [processed w].
    destruct processed; [done|].
    destruct (kstream.CurrentPid e); [done|].
    destruct (kstream.ExcludeKevent e); [done|].
    simpl. by destruct (kstream.filter k).
  - destruct (kstream.CurrentPid e); [done|].
    destruct (kstream.ExcludeKevent e); [done|].
    by destruct (kstream.filter k).
Qed.

(** An event that [isEventDropped] lets through is not of the agent's own
    process. *)
Lemma isEventDropped_false_pid e k k' :
  kstream.isEventDropped e k = (false, k') -> PID e <> kstream.currentPid.
Proof.
  intros Hd Hpid.
  destruct (isEventDropped_own_pid e k Hpid) as [w Hw]. congruence.
Qed.

Lemma publishEvent_delivers e k d :
  d ∈ kstream.delivered (kstream.publishEvent e k).2 ->
  d ∈ kstream.delivered k \/ PID d.2 <> kstream.currentPid.
Proof.
  unfold kstream.publishEvent.
  destruct (kstream.psnapshotter_Find (PID e) (kstream.world k)) as [proc w].
  simpl. destruct (kstream.ExcludeImage proc w); [by left|].
  set (e1 := match PS e with Some _ => e | None => set_PS proc e end).
  pose proof (isEventDropped_fields e1 (kstream.set_world w k)) as Hf.
  destruct (kstream.isEventDropped e1 (kstream.set_world w k)) as [dropped k1] eqn:Hd.
  simpl in Hf. destruct Hf as (Hdel & _ & _).
  destruct dropped; simpl; [rewrite Hdel; by left|].
  apply isEventDropped_false_pid in Hd.
  set (k2 := if negb (kstream.IsState e1) then _ else k1).
  assert (kstream.delivered k2 = kstream.delivered k) as Hdel2.
  { subst k2. by destruct (kstream.IsState e1). }
  destruct (kstream.eventCallback k2); simpl; rewrite Hdel2;
    intros [Hin| ->%list_elem_of_singleton]%elem_of_app; auto.
Qed.

(** No event delivered during a run that starts with nothing delivered has
    the PID of the agent's own process. *)
Lemma delivered_never_own_pid (ops : list (kstream.Op W R)) k d :
  kstream.delivered k = [] ->
  d ∈ kstream.delivered (kstream.run ops k) ->
  PID d.2 <> kstream.currentPid.
Proof.
  intros Hnil.
  assert (forall k0, (forall d, d ∈ kstream.delivered k0 -> PID d.2 <> kstream.currentPid) ->
    forall d, d ∈ kstream.delivered (kstream.run ops k0) ->
      PID d.2 <> kstream.currentPid) as Hinv.
  { induction ops as [|op ops IH]; intros k0 Hk0; [done|].
    unfold kstream.run. simpl. apply IH. intros d0.
    destruct op as [evt|n|f|f]; simpl; try apply Hk0.
    unfold kstream.processEventCallback, kstream.processEvent, kstream.New.
    destruct (kstream.decode evt) as [e0|]; simpl; [|apply Hk0].
    destruct (kstream.processors_ProcessEvent _ _) as [[evts err] w].
    destruct err as [err|].
    { destruct (IsCancelUpstreamKevent err); simpl; apply Hk0. }
    destruct evts as [out|]; simpl; [|apply Hk0].
    pose proof (publishEvent_delivers out (kstream.set_world w k0) d0) as Hp.
    destruct (kstream.publishEvent out (kstream.set_world w k0)) as [[err|] k1];
      simpl in *; intros Hin; destruct (Hp Hin) as [Hold|Hnew]; auto. }
  apply Hinv. intros d0. rewrite Hnil. by intros ?%elem_of_nil.
Qed.

(** *** Sequence numbers of the delivered events *)






End consumer_props.

(** Scenario 4: a CreateProcess by the agent's own process, whose image is
    on the list of excluded images. *)
Lemma publishEvent_own_pid_witness :
  PID (scenario.processEvent ktypes.CreateProcess 4242 5000 4242 "cmd.exe" None)
  = @kstream.currentPid _ _ scenario.consumerDeps
  /\ kstream.Events
       (@kstream.publishEvent _ _ scenario.consumerDeps
          (scenario.processEvent ktypes.CreateProcess 4242 5000 4242 "cmd.exe" None)
          (scenario.consumer0 false)).2
     = []
  /\ kstream.keventsEnqueued
       (@kstream.publishEvent _ _ scenario.consumerDeps
          (scenario.processEvent ktypes.CreateProcess 4242 5000 4242 "cmd.exe" None)
          (scenario.consumer0 false)).2
     = 0.
Proof.
  destruct (@publishEvent_own_pid _ _ scenario.consumerDeps
              (scenario.processEvent ktypes.CreateProcess 4242 5000 4242 "cmd.exe" None)
              (scenario.consumer0 false) eq_refl)
    as (_ & _ & Hevents & Henq & _).
  split; [reflexivity|]. split; [exact Hevents|exact Henq].
Defined.

(** Scenario 4 as the code runs it: the event of the agent's own process is
    dropped by the excluded-image check, which comes before the check of
    the PID, and kstream.excluded.procs goes from 0 to 1. *)
Lemma publishEvent_own_pid_counts_excluded_proc :
  PID (scenario.processEvent ktypes.CreateProcess 4242 5000 4242 "cmd.exe" None)
  = @kstream.currentPid _ _ scenario.consumerDeps
  /\ kstream.excludedProcs (scenario.consumer0 false) = 0
  /\ kstream.excludedProcs
       (@kstream.publishEvent _ _ scenario.consumerDeps
          (scenario.processEvent ktypes.CreateProcess 4242 5000 4242 "cmd.exe" None)
          (scenario.consumer0 false)).2
     = 1.
Proof. repeat split; by vm_compute. Qed.




(** Scenario 3 at the consumer: the CreateHandle held back by the handle
    processor is delivered, when its CloseHandle comes, with the sequence
    number it was stamped with, after an event with a greater one. *)
Lemma deferred_CreateHandle_delivered_out_of_order :
  map (fun e => (Typ e, Seq e))
    (kstream.Events
       (@kstream.run _ _ scenario.handleConsumerDeps
          [kstream.OnRecord scenario.createHandle;
           kstream.OnRecord (scenario.other 100);
           kstream.OnRecord (scenario.other 101);
           kstream.OnRecord scenario.closeHandle]
          scenario.handleConsumer0))
  = [(ktypes.Other 0, 0); (ktypes.Other 0, 1); (ktypes.CreateHandle, 0)].
Proof. by vm_compute. Qed.

(** * Further properties *)

(** ** The processor chain, whatever its processors *)

Section chain_more.
Context {W : Type}.
Implicit Types (ps : list (processors.Processor W)) (s : processors.Env W).

Lemma failures_after_add n m c :
  failures_after n (failures_after m c) = failures_after (m + n) c.
Proof.
  unfold failures_after. rewrite Nat.add_comm. by rewrite Nat.iter_add.
Qed.

Lemma walk_shape ps : forall kevt out errs0 s,
  exists errs1,
    Forall reported errs1
    /\ (length errs1 <= length ps)%nat
    /\ processors.processorFailures (processors.walk ps kevt out errs0 s).2
       = failures_after (length errs1) (processors.processorFailures s)
    /\ ((processors.walk ps kevt out errs0 s).1.2 = multierror_Wrap (errs0 ++ errs1)
        \/ (processors.walk ps kevt out errs0 s).1.2 = Some ErrCancelUpstreamKevent).
Proof.
  induction ps as [|p ps IH]; intros kevt out errs0 s.
  - exists []. simpl. rewrite after_walk_Wrap, app_nil_r. simpl. by auto.
  - simpl.
    destruct (processors.ProcessEvent p kevt (processors.world s)) as [o w].
    destruct (processors.o_err o) as [e|] eqn:He.
    + destruct (IsCancelUpstreamKevent e) eqn:Hc; simpl.
      * exists []. simpl. split; [done|]. split; [lia|]. split; [done|].
        right. by destruct e.
      * destruct (IH (processors.o_kevt o) (Some (processors.o_output o))
                    (errs0 ++ [ErrProcessorFailed (processors.Name p) e])
                    (processors.mkEnv w (Int_Add (processors.processorFailures s) 1)))
          as (errs1 & Hrep & Hlen & Hcnt & Herr).
        exists (ErrProcessorFailed (processors.Name p) e :: errs1).
        split; [constructor; [by eexists _, _|done]|].
        split; [simpl; lia|]. split.
        -- rewrite Hcnt. simpl processors.processorFailures.
           by rewrite failures_after_S.
        -- by rewrite <- app_assoc in Herr.
    + destruct (processors.o_next o); simpl.
      * destruct (IH (processors.o_kevt o) (Some (processors.o_output o)) errs0
                    (processors.mkEnv w (processors.processorFailures s)))
          as (errs1 & Hrep & Hlen & Hcnt & Herr).
        exists errs1. split; [done|]. split; [lia|]. by split.
      * exists []. rewrite after_walk_Wrap, app_nil_r. simpl.
        split; [done|]. split; [lia|]. by auto.
Qed.


Lemma walk_output ps : forall kevt out errs s,
  (ps <> [] \/ is_Some out) ->
  is_Some (processors.walk ps kevt out errs s).1.1.
Proof.
  induction ps as [|p ps IH]; intros kevt out errs s Hor.
  - destruct Hor as [?|Hout]; [done|]. simpl. by rewrite after_walk_Wrap.
  - simpl.
    destruct (processors.ProcessEvent p kevt (processors.world s)) as [o w].
    destruct (processors.o_err o) as [e|].
    + destruct (IsCancelUpstreamKevent e); simpl; [by eexists|].
      apply IH. right. by eexists.
    + destruct (processors.o_next o); simpl.
      * apply IH. right. by eexists.
      * rewrite after_walk_Wrap. by eexists.
Qed.

(** X2.  The event [chain.ProcessEvent] returns is nil exactly for a chain
    without processors, which returns no error and touches nothing; a chain
    with a processor returns an event on every path, with or without an
    error. *)
Theorem chain_ProcessEvent_output (c : processors.chain W) kevt s :
  (processors.chain_processors c = [] ->
   processors.chain_ProcessEvent c kevt s = (None, None, s))
  /\ (processors.chain_processors c <> [] ->
      is_Some (processors.chain_ProcessEvent c kevt s).1.1)
  /\ ((processors.chain_ProcessEvent c kevt s).1.1 = None ->
      processors.chain_processors c = []).
Proof.
  unfold processors.chain_ProcessEvent. split; [|split].
  - intros ->. by destruct s.
  - intros Hne. apply walk_output. by left.
  - intros Hnone. destruct (processors.chain_processors c) as [|p ps] eqn:E; [done|].
    assert (p :: ps <> []) as Hne by done.
    pose proof (walk_output (p :: ps) kevt None [] s (or_introl Hne)) as [x Hx].
    rewrite Hx in Hnone. done.
Qed.

End chain_more.

(** ** The handle processor, further *)

Section handle_more.
Context {X : Type} `{!processors.HandleDeps X}.
Implicit Types (e evt : Kevent) (h : processors.handleProcessor X).
Implicit Types (r : processors.Resolved) (x : X).

Lemma appendDrivers_lookup_ne driverName drivers (kpars : Kparams) name :
  name <> kparams.ImageFilename ->
  processors.appendDrivers driverName drivers kpars !! name = kpars !! name.
Proof.
  intros Hne. revert kpars.
  induction drivers as [|drv drivers IH]; intros kpars; [done|].
  simpl. rewrite IH.
  destruct (processors.strings_EqualFold _ _); [|done].
  unfold Kparams_Append. by rewrite lookup_insert_ne.
Qed.

(** X3.  Of the loaded drivers that match a driver object's name the last
    one enumerated gives the ImageFilename parameter; when none matches the
    parameter is left as it was; no other parameter is touched. *)
Theorem appendDrivers_last_match driverName drivers (kpars : Kparams) :
  processors.appendDrivers driverName drivers kpars !! kparams.ImageFilename
  = match last (matching driverName drivers) with
    | Some drv =>
      Some (mkKparam kparams.FilePath (VString (processors.Filename drv)))
    | None => kpars !! kparams.ImageFilename
    end
  /\ forall name, name <> kparams.ImageFilename ->
       processors.appendDrivers driverName drivers kpars !! name = kpars !! name.
Proof.
  split; [|intros name; apply appendDrivers_lookup_ne].
  revert kpars. induction drivers as [|drv drivers IH]; intros kpars; [done|].
  simpl. rewrite IH. unfold matching. rewrite filter_cons.
  destruct (processors.strings_EqualFold _ _) eqn:Hm.
  - rewrite decide_True by done.
    fold (matching driverName drivers).
    destruct (matching driverName drivers) as [|d ds] eqn:E.
    + simpl. unfold Kparams_Append. by rewrite lookup_insert_eq.
    + change (last (drv :: d :: ds)) with (last (d :: ds)).
      destruct (last (d :: ds)) eqn:El; [done|]. by apply last_None in El.
  - rewrite decide_False by (by intros ?). done.
Qed.

Lemma to_uint_8_period t k : to_uint 8 (t + 256 * k) = to_uint 8 t.
Proof.
  unfold to_uint. change (2 ^ 8) with 256.
  rewrite Z.mul_comm. apply Z_mod_plus_full.
Qed.

(** X4.  The type name of a handle is looked up by the low 8 bits of its
    16-bit type id, so ids that differ by a multiple of 256 resolve alike;
    and when the type store knows the name neither the operating system nor
    the store is touched and no duplicate is made. *)
Theorem resolveType_low_bits e handleID typeID k x :
  processors.resolveType e handleID (typeID + 256 * k) x
  = processors.resolveType e handleID typeID x
  /\ (processors.typeStore_FindByID (to_uint 8 typeID) x <> ""%string ->
      processors.resolveType e handleID typeID x
      = (Ok (processors.typeStore_FindByID (to_uint 8 typeID) x, None), x)).
Proof.
  split.
  - unfold processors.resolveType. by rewrite to_uint_8_period.
  - intros Hne. unfold processors.resolveType.
    destruct (String.eqb_spec (processors.typeStore_FindByID (to_uint 8 typeID) x) "");
      done.
Qed.

(** What a successful first part of [processEvent] leaves of the event's
    parameters. *)
Lemma resolve_inr_object e x r x' :
  processors.resolve e x = (inr r, x') ->
  GetUint64 kparams.HandleObject (Kparams_ (processors.r_kevt r))
  = Ok (processors.r_object r)
  /\ Category (processors.r_kevt r) = Category e.
Proof.
  unfold processors.resolve. intros Hres.
  destruct (GetUint32 kparams.HandleID (Kparams_ e)) as [handleID|]; [|done].
  destruct (GetUint16 kparams.HandleObjectTypeID (Kparams_ e)) as [typeID|]; [|done].
  destruct (GetUint64 kparams.HandleObject (Kparams_ e)) as [object|] eqn:Hobj; [|done].
  destruct (processors.resolveType e handleID typeID x) as [[[typeName dup]|] x1];
    [|done].
  destruct (GetString _ _) as [name|]; [|done].
  destruct (processors.formatName typeName name _ x1) as [[name' kpars2] x2] eqn:Hfmt.
  destruct (Kparams_SetValue _ _ kpars2) as [kpars3|] eqn:Hset; [|done].
  injection Hres as <- <-. simpl. split; [|done].
  apply SetValue_Ok in Hset as (kpar & _ & ->).
  assert (kpars2 !! kparams.HandleObject = Kparams_ e !! kparams.HandleObject) as Hk.
  { unfold processors.formatName in Hfmt.
    assert (Kparams_Remove kparams.HandleObjectTypeID
              (Kparams_Append kparams.HandleObjectTypeName kparams.AnsiString
                 (VString typeName) (Kparams_ e)) !! kparams.HandleObject
            = Kparams_ e !! kparams.HandleObject) as Hbase.
    { unfold Kparams_Remove, Kparams_Append.
      by rewrite lookup_delete_ne, lookup_insert_ne. }
    repeat case_match; simplify_eq; try done.
    by rewrite appendDrivers_lookup_ne. }
  unfold GetUint64 in *. rewrite lookup_insert_ne by done. by rewrite Hk.
Qed.

Lemma pending_ok_empty x c :
  pending_ok (processors.mkHandleProcessor x ∅ c).
Proof. intros object evt Hl. simpl in Hl. by rewrite lookup_empty in Hl. Qed.

Lemma pair_objects r h :
  let h' := (processors.pair r h).2 in
  processors.objects h' = processors.objects h
  \/ (processors.objects h'
      = <[processors.r_object r := processors.r_kevt r]> (processors.objects h)
      /\ Typ (processors.r_kevt r) = ktypes.CreateHandle
      /\ processors.r_name r = ""%string)
  \/ (processors.objects h' = delete (processors.r_object r) (processors.objects h)
      /\ Typ (processors.r_kevt r) <> ktypes.CreateHandle).
Proof.
  simpl. unfold processors.pair.
  case_bool_decide as HT.
  - destruct (String.eqb_spec (processors.r_name r) ""); simpl.
    + right. left. by split.
    + destruct (processors.hsnap_Write _ _). by left.
  - destruct (processors.objects h !! processors.r_object r) as [evt|].
    + right. right. split; [|done].
      repeat (case_match; simpl; try done).
    + destruct (processors.hsnap_Remove _ _). by left.
Qed.

Lemma processEvent_objects e h :
  processors.objects (processors.processEvent e h).2 = processors.objects h
  \/ exists r x1,
       processors.resolve e (processors.ext h) = (inr r, x1)
       /\ ((processors.objects (processors.processEvent e h).2
            = <[processors.r_object r := processors.r_kevt r]> (processors.objects h)
            /\ Typ (processors.r_kevt r) = ktypes.CreateHandle
            /\ processors.r_name r = ""%string)
           \/ (processors.objects (processors.processEvent e h).2
               = delete (processors.r_object r) (processors.objects h)
               /\ Typ (processors.r_kevt r) <> ktypes.CreateHandle)).
Proof.
  unfold processors.processEvent.
  destruct (processors.resolve e (processors.ext h)) as [[[e1 err]|r] x1] eqn:Hres.
  { by left. }
  pose proof (pair_objects r (processors.set_ext x1 h)) as Hp. simpl in Hp.
  destruct (processors.pair r (processors.set_ext x1 h)) as [[[e1 out] err] h1].
  simpl in *.
  assert (processors.objects
            match processors.r_dup r with
            | Some dup => processors.set_ext (processors.dup_Close dup (processors.ext h1)) h1
            | None => h1
            end = processors.objects h1) as -> by (by destruct (processors.r_dup r)).
  destruct Hp as [Hp|Hp]; [by left|]. right. by exists r, x1.
Qed.

(** X5.  The pending table only ever holds CreateHandle events with an
    empty name, each under its own object pointer: the empty table is such,
    and [processEvent] keeps it such whatever the event.  An event changes
    the table by at most one entry: a CreateHandle with an empty name adds
    or replaces the entry of its pointer, any other handle event removes at
    most the entry of its pointer. *)
Theorem processEvent_keeps_pending_ok e h :
  pending_ok h ->
  pending_ok (processors.processEvent e h).2
  /\ (forall object,
        GetUint64 kparams.HandleObject (Kparams_ e) <> Ok object ->
        processors.objects (processors.processEvent e h).2 !! object
        = processors.objects h !! object)
  /\ (Typ e <> ktypes.CreateHandle ->
      processors.objects (processors.processEvent e h).2 ⊆ processors.objects h).
Proof.
  intros Hok.
  destruct (processEvent_objects e h) as [Heq|(r & x1 & Hres & Hcase)].
  { rewrite Heq. split; [|split]; try done. intros object evt. rewrite Heq. apply Hok. }
  destruct (resolve_inr _ _ _ _ Hres) as (HT & _ & _ & Hobj0 & t & Hname).
  destruct (resolve_inr_object _ _ _ _ Hres) as [Hobj _].
  destruct Hcase as [(Heq & HTy & Hempty)|(Heq & HTy)]; rewrite Heq.
  - split; [|split].
    + intros object evt Hl. rewrite Heq in Hl.
      destruct (decide (object = processors.r_object r)) as [->|Hne].
      * rewrite lookup_insert_eq in Hl. injection Hl as <-.
        split; [done|]. split; [|done]. exists t. by rewrite <- Hempty.
      * rewrite lookup_insert_ne in Hl by done. by apply Hok.
    + intros object Hne. rewrite lookup_insert_ne; [done|]. congruence.
    + intros Hn. congruence.
  - split; [|split].
    + intros object evt Hl. rewrite Heq in Hl.
      apply lookup_delete_Some in Hl as [_ Hl]. by apply Hok.
    + intros object Hne. rewrite lookup_delete_ne; [done|]. congruence.
    + intros _. apply delete_subseteq.
Qed.

(** X6.  A handle event that lacks one of the parameters HandleID,
    HandleObjectTypeID or HandleObject, or holds one with another type, is
    handed back unchanged with an error, does not proceed to later
    processors, and leaves the processor (pending table, counter,
    collaborators) as it was. *)
Theorem handle_ProcessEvent_missing_parameter e h :
  Category e = ktypes.Handle ->
  (forall v, GetUint32 kparams.HandleID (Kparams_ e) <> Ok v)
  \/ (forall v, GetUint16 kparams.HandleObjectTypeID (Kparams_ e) <> Ok v)
  \/ (forall v, GetUint64 kparams.HandleObject (Kparams_ e) <> Ok v) ->
  exists err,
    processors.handle_ProcessEvent e h
    = (processors.mkOutcome e e false (Some err), h).
Proof.
  intros Hcat Hmiss. unfold processors.handle_ProcessEvent.
  rewrite bool_decide_eq_true_2 by done.
  unfold processors.processEvent, processors.resolve.
  assert (processors.set_ext (processors.ext h) h = h) as Hh by (by destruct h).
  destruct (GetUint32 kparams.HandleID (Kparams_ e)) as [v1|err1] eqn:H1.
  2:{ exists err1. by rewrite Hh. }
  destruct (GetUint16 kparams.HandleObjectTypeID (Kparams_ e)) as [v2|err2] eqn:H2.
  2:{ exists err2. by rewrite Hh. }
  destruct (GetUint64 kparams.HandleObject (Kparams_ e)) as [v3|err3] eqn:H3.
  2:{ exists err3. by rewrite Hh. }
  destruct Hmiss as [Hm|[Hm|Hm]]; by destruct (Hm _ eq_refl).
Qed.

(** X7.  A handle event that resolves but takes no part in a pairing is
    handed back itself, with the error of the handle snapshotter, and
    neither the pending table nor handle.deferred.matches changes: a
    CreateHandle with a name is written to the handle snapshotter, even
    while an event is pending for its object pointer; any other handle
    event with nothing pending for its pointer is removed from the handle
    snapshotter. *)
Theorem processEvent_unpaired e h r x1 :
  processors.resolve e (processors.ext h) = (inr r, x1) ->
  (Typ e = ktypes.CreateHandle /\ processors.r_name r <> ""%string)
  \/ (Typ e <> ktypes.CreateHandle
      /\ processors.objects h !! processors.r_object r = None) ->
  let res := processors.processEvent e h in
  res.1.1.2 = processors.r_kevt r
  /\ res.1.1.1 = processors.r_kevt r
  /\ res.1.2
     = (if bool_decide (Typ e = ktypes.CreateHandle)
        then (processors.hsnap_Write (processors.r_kevt r) x1).1
        else (processors.hsnap_Remove (processors.r_kevt r) x1).1)
  /\ processors.objects res.2 = processors.objects h
  /\ processors.handleDeferMatches res.2 = processors.handleDeferMatches h.
Proof.
  intros Hres Hcase. simpl.
  destruct (resolve_inr _ _ _ _ Hres) as (HT & _).
  unfold processors.processEvent. rewrite Hres. unfold processors.pair. simpl.
  rewrite HT.
  destruct Hcase as [[Hty Hname]|[Hty Hnone]].
  - rewrite !bool_decide_eq_true_2 by done.
    destruct (String.eqb_spec (processors.r_name r) ""); [done|].
    destruct (processors.hsnap_Write (processors.r_kevt r) x1) as [err x2].
    simpl. by destruct (processors.r_dup r).
  - rewrite !bool_decide_eq_false_2 by done. rewrite Hnone.
    destruct (processors.hsnap_Remove (processors.r_kevt r) x1) as [err x2].
    simpl. by destruct (processors.r_dup r).
Qed.

Lemma processEvent_withheld e h r x1 :
  Typ e = ktypes.CreateHandle ->
  processors.resolve e (processors.ext h) = (inr r, x1) ->
  processors.r_name r = ""%string ->
  exists h1,
    processors.processEvent e h
    = (processors.r_kevt r, processors.r_kevt r, Some ErrCancelUpstreamKevent, h1)
    /\ processors.objects h1
       = <[processors.r_object r := processors.r_kevt r]> (processors.objects h)
    /\ processors.handleDeferMatches h1 = processors.handleDeferMatches h.
Proof.
  intros Hty Hres Hname.
  destruct (resolve_inr _ _ _ _ Hres) as (HT & _).
  unfold processors.processEvent. rewrite Hres.
  unfold processors.pair. simpl.
  rewrite HT, Hty, bool_decide_eq_true_2 by done.
  rewrite Hname. simpl.
  destruct (processors.r_dup r); eexists; (split; [reflexivity|done]).
Qed.

(** X8.  A CreateHandle with an empty name for an object pointer that
    already has an event pending takes the place of that event: the table
    keeps its size, the event that was pending is in it no more, and
    nothing has been handed on for it; the new event is withheld with the
    cancel-upstream sentinel. *)
Theorem processEvent_replaces_pending e h r x1 evt :
  Typ e = ktypes.CreateHandle ->
  processors.resolve e (processors.ext h) = (inr r, x1) ->
  processors.r_name r = ""%string ->
  processors.objects h !! processors.r_object r = Some evt ->
  let res := processors.processEvent e h in
  res.1.1.2 = processors.r_kevt r
  /\ res.1.2 = Some ErrCancelUpstreamKevent
  /\ processors.objects res.2
     = <[processors.r_object r := processors.r_kevt r]> (processors.objects h)
  /\ size (processors.objects res.2) = size (processors.objects h)
  /\ processors.handleDeferMatches res.2 = processors.handleDeferMatches h.
Proof.
  intros Hty Hres Hname Hpend. simpl.
  destruct (processEvent_withheld e h r x1 Hty Hres Hname)
    as (h1 & Heq & Hobj & Hcnt).
  rewrite Heq. simpl. rewrite Hobj.
  split; [done|]. split; [done|]. split; [done|]. split; [|done].
  apply map_size_insert_Some. by eexists.
Qed.

End handle_more.

(** ** The handle-name resolver, further *)

Section resolver_more.
Context {X : Type} `{!handle.OS X}.
Implicit Types (st : handle.State X).

(** Name the result of the next call in the goal and record what the call
    left unchanged. *)
Ltac next_call :=
  match goal with
  | |- context [handle.call ?c ?s] =>
    let r := fresh "r" in
    let s' := fresh "st" in
    let H := fresh "Hcall" in
    destruct (handle.call c s) as [r s'] eqn:H;
    apply call_inv in H; simpl in H;
    destruct H as (? & ? & ? & ? & ?)
  end.

Ltac calls_extend :=
  eexists;
  repeat match goal with Hc : handle.calls _ = _ |- _ => rewrite Hc end;
  simpl; rewrite <- ?app_assoc; reflexivity.

Lemma signal_inv hdl st :
  let res := handle.signal hdl st in
  (exists rest, handle.calls res.2 = handle.calls st ++ rest)
  /\ match res.1 with
     | inl (name, err) => name = ""%string /\ err <> None
     | inr _ => True
     end.
Proof.
  simpl. unfold handle.signal.
  destruct (handle.thread st =? 0).
  - next_call. destruct (handle.ret_err r) eqn:E1; simpl.
    { split; [calls_extend|done]. }
    next_call. destruct (handle.ret_err r0) eqn:E2; simpl.
    { split; [calls_extend|done]. }
    next_call. simpl.
    destruct (handle.ret_val r1 =? 0); simpl.
    { next_call. simpl. split; [calls_extend|done]. }
    next_call. destruct (handle.ret_err r2) eqn:E3; simpl.
    { split; [calls_extend|done]. }
    split; [calls_extend|done].
  - simpl. next_call. destruct (handle.ret_err r) eqn:E3; simpl.
    { split; [calls_extend|done]. }
    split; [calls_extend|done].
Qed.

Lemma await_inv timeout st :
  let res := handle.await timeout st in
  (res.1.2 <> None -> res.1.1 = ""%string)
  /\ (handle.waitTimeoutCounts res.2 = handle.waitTimeoutCounts st
      \/ handle.waitTimeoutCounts res.2 = Int_Add (handle.waitTimeoutCounts st) 1).
Proof.
  simpl. unfold handle.await.
  next_call. destruct (handle.ret_val r =? handle.WAIT_OBJECT_0); simpl.
  { split; [done|]. by left. }
  destruct (handle.is_WAIT_TIMEOUT (handle.ret_err r)); simpl.
  2:{ split; [done|]. by left. }
  next_call. destruct (handle.ret_err r0); simpl.
  { split; [done|]. right. congruence. }
  next_call. destruct (handle.ret_err r1); simpl.
  { split; [done|]. right. congruence. }
  next_call. simpl. split; [done|]. right. congruence.
Qed.

(** X9.  [GetHandleWithTimeout] never returns a name together with an
    error: whenever it returns an error the name is the empty string.  It
    counts at most one timeout, and the calls it has made are kept: the
    record of calls afterwards extends the record before. *)
Theorem GetHandleWithTimeout_error_means_no_name hdl timeout st :
  let res := handle.GetHandleWithTimeout hdl timeout st in
  (res.1.2 <> None -> res.1.1 = ""%string)
  /\ (handle.waitTimeoutCounts res.2 = handle.waitTimeoutCounts st
      \/ handle.waitTimeoutCounts res.2 = Int_Add (handle.waitTimeoutCounts st) 1)
  /\ exists rest, handle.calls res.2 = handle.calls st ++ rest.
Proof.
  simpl. unfold handle.GetHandleWithTimeout.
  pose proof (signal_inv hdl st) as Hinv. simpl in Hinv.
  destruct (handle.signal hdl st) as [[[name err]|[]] st1] eqn:Hsig; simpl in Hinv.
  - destruct Hinv as [Hcalls [-> Herr]]. simpl.
    split; [done|]. split; [|done].
    left. by apply (signal_counter _ _ _ _ Hsig).
  - destruct Hinv as [[rest1 Hcalls] _].
    destruct (await_inv timeout st1) as [Hname Hcnt]. simpl in *.
    destruct (await_calls timeout st1) as [rest2 Hcalls2].
    split; [done|]. split.
    + by rewrite <- (signal_counter _ _ _ _ Hsig).
    + exists (rest1 ++ rest2). by rewrite Hcalls2, Hcalls, app_assoc.
Qed.

(** X10.  The worker is reused: with a worker in the thread slot, an
    invocation whose signal is accepted and whose wait ends with
    WAIT_OBJECT_0 makes these two calls and no other (no event is reset, no
    thread created or terminated), returns the name the worker left with
    no error, and keeps the thread slot and the timeout counter. *)
Theorem GetHandleWithTimeout_reuses_worker hdl timeout st r1 x1 r2 x2 :
  handle.thread st <> 0 ->
  handle.os (handle.SetEvent (handle.ini st)) (handle.sys st) = (r1, x1) ->
  handle.ret_err r1 = None ->
  handle.os (handle.WaitForSingleObject (handle.done st) timeout) x1 = (r2, x2) ->
  handle.ret_val r2 = handle.WAIT_OBJECT_0 ->
  handle.GetHandleWithTimeout hdl timeout st
  = (handle.objectNameInCallback x2, None,
     handle.mkState (handle.thread st) (Some hdl) (handle.ini st) (handle.done st)
       (handle.waitTimeoutCounts st) x2
       (handle.calls st
        ++ [handle.SetEvent (handle.ini st);
            handle.WaitForSingleObject (handle.done st) timeout])).
Proof.
  intros Hth Hset Hset_ok Hwait Hval.
  unfold handle.GetHandleWithTimeout, handle.signal.
  apply Z.eqb_neq in Hth. rewrite Hth. simpl.
  rewrite (call_eq _ (handle.set_rawHandle hdl st) r1 x1) by exact Hset.
  rewrite Hset_ok. unfold handle.await. simpl.
  erewrite call_eq by exact Hwait. rewrite Hval. simpl.
  by rewrite <- app_assoc.
Qed.

(** X11.  When the wait on the done event ends neither with WAIT_OBJECT_0
    nor with the timeout error (a failed wait with another error, or a wait
    status without an error), [GetHandleWithTimeout] returns the empty
    string and no error: no timeout is counted and the worker thread is
    neither terminated nor closed, the thread slot stays as it is. *)
Theorem GetHandleWithTimeout_other_wait_result hdl timeout st st1 r x2 :
  handle.signal hdl st = (inr (), st1) ->
  handle.os (handle.WaitForSingleObject (handle.done st1) timeout) (handle.sys st1)
  = (r, x2) ->
  handle.ret_val r <> handle.WAIT_OBJECT_0 ->
  handle.is_WAIT_TIMEOUT (handle.ret_err r) = false ->
  handle.GetHandleWithTimeout hdl timeout st
  = (""%string, None,
     handle.mkState (handle.thread st1) (handle.rawHandle st1) (handle.ini st1)
       (handle.done st1) (handle.waitTimeoutCounts st1) x2
       (handle.calls st1 ++ [handle.WaitForSingleObject (handle.done st1) timeout]))
  /\ handle.waitTimeoutCounts st1 = handle.waitTimeoutCounts st.
Proof.
  intros Hsig Hwait Hval Herr.
  unfold handle.GetHandleWithTimeout. rewrite Hsig. unfold handle.await.
  rewrite (call_eq _ _ _ _ Hwait). apply Z.eqb_neq in Hval.
  rewrite Hval, Herr. split; [done|]. by apply (signal_counter _ _ _ _ Hsig).
Qed.

(** X12.  [CloseTimeout] closes the init event and the done event whatever
    happens.  When closing the init event fails it stops there: the thread
    handle is not closed and the error returned is that of closing the done
    event, the error of the init event is lost.  Otherwise it closes the
    thread handle as well and returns the error of that close; an error
    from closing the done event is lost. *)
Theorem CloseTimeout_closes st r1 x1 r2 x2 :
  handle.os (handle.CloseHandle (handle.ini st)) (handle.sys st) = (r1, x1) ->
  handle.os (handle.CloseHandle (handle.done st)) x1 = (r2, x2) ->
  let res := resolver.CloseTimeout st in
  (handle.ret_err r1 <> None ->
   res.1 = handle.ret_err r2
   /\ handle.calls res.2
      = handle.calls st
        ++ [handle.CloseHandle (handle.ini st); handle.CloseHandle (handle.done st)])
  /\ (handle.ret_err r1 = None ->
      res.1 = handle.ret_err (handle.os (handle.CloseHandle (handle.thread st)) x2).1
      /\ handle.calls res.2
         = handle.calls st
           ++ [handle.CloseHandle (handle.ini st); handle.CloseHandle (handle.done st);
               handle.CloseHandle (handle.thread st)]).
Proof.
  intros H1 H2. simpl. unfold resolver.CloseTimeout.
  rewrite (call_eq _ _ _ _ H1). simpl.
  erewrite call_eq by exact H2. simpl.
  split.
  - intros Herr. destruct (handle.ret_err r1); [|done].
    simpl. by rewrite <- app_assoc.
  - intros ->. unfold handle.call. simpl.
    destruct (handle.os (handle.CloseHandle (handle.thread st)) x2) as [r3 x3].
    destruct (handle.ret_err r2); simpl; by rewrite <- !app_assoc.
Qed.

End resolver_more.

(** ** The process snapshotter, further *)

Section snapshotter_more.
Context `{!ps.Deps} `{!pssnap.RecordOps}.
Implicit Types (s : ps.snapshotter) (e : Kevent).

Lemma initProc_PID pid ppid e : pstypes.PID (ps.initProc pid ppid e).1.1 = pid.
Proof.
  unfold ps.initProc.
  destruct (ps.pe_Read _) as [pe [err|]]; [done|].
  destruct (ps.hsnap_FindHandles pid) as [handles [err|]]; [done|].
  destruct (ps.OpenProcess _ pid) as [process|]; [|done].
  by destruct (ps.ReadPEB process).
Qed.

Lemma lookup_PID pid : pstypes.PID (ps.lookup pid).1.1 = pid.
Proof.
  unfold ps.lookup.
  destruct (ps.OpenProcess ps.PROCESS_QUERY_INFORMATION_VM_READ pid) as [process|].
  - destruct (ps.pe_Read _) as [pe [err|]]; [done|].
    destruct (ps.QueryInformationProcess process) as [ppid|]; [|done].
    destruct (ps.hsnap_FindHandles pid) as [handles [err|]]; [done|].
    by destruct (ps.ReadPEB process).
  - destruct (ps.OpenProcess ps.PROCESS_QUERY_LIMITED_INFORMATION pid) as [process|];
      [|done].
    destruct (ps.QueryFullProcessImageName process) as [image|]; [|done].
    destruct (ps.pe_Read _) as [pe [err|]]; [done|].
    destruct (ps.QueryInformationProcess process) as [ppid|]; [|done].
    destruct (ps.hsnap_FindHandles pid) as [handles [err|]]; [done|].
    by destruct (ps.ReadPEB process).
Qed.

(** What [Write] does once the PID and the parent PID are read. *)
Lemma Write_shape e s pid ppid :
  GetPid (Kparams_ e) = Ok pid ->
  GetPpid (Kparams_ e) = Ok ppid ->
  exists proc e1 s1,
    ps.Write e s = (e1, (ps.initProc pid ppid e).1.2, s1)
    /\ ps.heap s !! proc = None
    /\ ps.procs s1 = <[pid := proc]> (ps.procs s)
    /\ ps.heap s1
       = <[proc := pstypes.set_Parent (ps.procs s1 !! ppid) (ps.initProc pid ppid e).1.1]>
           (ps.heap s)
    /\ ps.processCount s1 = Int_Add (ps.processCount s) 1
    /\ ps.capture s1 = ps.capture s
    /\ PS e1 = (if IsCreateProcess e then ps.procs s1 !! PID e else Some proc)
    /\ ps.threadCount s1 = ps.threadCount s.
Proof.
  intros Hpid Hppid. unfold ps.Write. rewrite Hpid, Hppid.
  destruct (ps.initProc pid ppid e) as [[rec err] pebFailed]. simpl.
  set (l := fresh (dom (ps.heap s))).
  assert (ps.heap s !! l = None) as Hfresh by (apply not_elem_of_dom, is_fresh).
  destruct pebFailed; simpl; fold l; exists l; eexists; eexists;
    (split; [reflexivity|]); simpl; rewrite insert_insert_eq;
    repeat split; try done; by destruct (IsCreateProcess e).
Qed.

Lemma Remove_shape e s pid :
  GetPid (Kparams_ e) = Ok pid ->
  exists s1,
    ps.Remove e s = (None, s1)
    /\ ps.procs s1 = delete pid (ps.procs s)
    /\ ps.processCount s1 = Int_Add (ps.processCount s) (-1)
    /\ ps.capture s1 = ps.capture s
    /\ forall l,
         ((exists q, ps.procs s1 !! q = Some l) ->
          ps.heap s1 !! l = orphaned pid <$> ps.heap s !! l)
         /\ ((forall q, ps.procs s1 !! q <> Some l) ->
             ps.heap s1 !! l = ps.heap s !! l).
Proof.
  intros Hpid. unfold ps.Remove. rewrite Hpid. eexists. split; [reflexivity|].
  simpl. repeat split; try done;
    destruct (orphan_fold pid (ps.heap s) (delete pid (ps.procs s)) l) as [Hin Hout];
    auto.
Qed.

Lemma orphaned_PID pid rec : pstypes.PID (orphaned pid rec) = pstypes.PID rec.
Proof. unfold orphaned. by destruct (_ =? _). Qed.

(** X13.  In live mode the record the index holds for a PID is in the store
    and carries that PID, and [Write], [Remove], a tick of the reaper and
    [Find] keep it so. *)
Theorem live_operations_keep_keyed s e pid :
  keyed s ->
  keyed (ps.Write e s).2
  /\ keyed (ps.Remove e s).2
  /\ keyed (ps.gcTick s)
  /\ keyed (ps.Find pid s).2.
Proof.
  intros Hk. split; [|split; [|split]].
  - destruct (GetPid (Kparams_ e)) as [p|err] eqn:Hpid.
    2:{ unfold ps.Write. rewrite Hpid. exact Hk. }
    destruct (GetPpid (Kparams_ e)) as [pp|err] eqn:Hppid.
    2:{ unfold ps.Write. rewrite Hpid, Hppid. exact Hk. }
    destruct (Write_shape e s p pp Hpid Hppid)
      as (proc & e1 & s1 & Heq & Hfresh & Hprocs & Hheap & _).
    rewrite Heq. simpl. intros q l Hq. rewrite Hprocs in Hq. rewrite Hheap.
    destruct (decide (q = p)) as [->|Hne].
    + rewrite lookup_insert_eq in Hq. injection Hq as <-.
      rewrite lookup_insert_eq. eexists. split; [done|]. simpl.
      apply initProc_PID.
    + rewrite lookup_insert_ne in Hq by done.
      destruct (Hk q l Hq) as (rec & Hrec & HPID).
      exists rec. split; [|done]. rewrite lookup_insert_ne; [done|]. congruence.
  - destruct (GetPid (Kparams_ e)) as [p|err] eqn:Hpid.
    2:{ unfold ps.Remove. rewrite Hpid. exact Hk. }
    destruct (Remove_shape e s p Hpid) as (s1 & Heq & Hprocs & _ & _ & Hheap).
    rewrite Heq. simpl. intros q l Hq.
    destruct (Hheap l) as [Hin _]. rewrite Hin by eauto.
    rewrite Hprocs in Hq. apply lookup_delete_Some in Hq as [_ Hq].
    destruct (Hk q l Hq) as (rec & -> & HPID).
    exists (orphaned p rec). split; [done|]. by rewrite orphaned_PID.
  - intros q l Hq.
    assert (ps.procs s !! q = Some l /\ ps.heap (ps.gcTick s) = ps.heap s) as [Hq0 ->].
    { unfold ps.gcTick in *.
      destruct (_ <? _)%nat; simpl in *; rewrite reap_fold_lookup in Hq;
        destruct (dead q); done. }
    by apply Hk.
  - unfold ps.Find.
    destruct (ps.procs s !! pid) as [l|] eqn:Hl; [exact Hk|].
    destruct (ps.capture s); [exact Hk|].
    pose proof (lookup_PID pid) as HPID.
    destruct (ps.lookup pid) as [[rec found] pebFailed]. simpl in HPID.
    set (s2 := if pebFailed then _ else _).
    assert (ps.heap s2 = ps.heap s /\ ps.procs s2 = ps.procs s) as [Hh Hp].
    { subst s2. by destruct pebFailed. }
    simpl. rewrite Hh.
    set (l := fresh (dom (ps.heap s))).
    assert (ps.heap s !! l = None) as Hfresh by (apply not_elem_of_dom, is_fresh).
    assert (forall q l', ps.procs s !! q = Some l' ->
              exists rec', <[l:=rec]> (ps.heap s) !! l' = Some rec'
                           /\ pstypes.PID rec' = q) as Hold.
    { intros q l' Hq. destruct (Hk q l' Hq) as (rec' & Hrec' & HP).
      exists rec'. split; [|done]. rewrite lookup_insert_ne; [done|]. congruence. }
    destruct found; simpl; intros q l' Hq; simpl in *.
    + rewrite Hp in Hq. destruct (decide (q = pid)) as [->|Hne].
      * rewrite lookup_insert_eq in Hq. injection Hq as <-.
        exists rec. by rewrite lookup_insert_eq.
      * rewrite lookup_insert_ne in Hq by done. by apply Hold.
    + rewrite Hp in Hq. by apply Hold.
Qed.

(** In live mode, over a keyed index, [Find] returns a pointer to a record
    with the PID asked for. *)
Lemma Find_live_record s pid :
  keyed s ->
  ps.capture s = false ->
  exists l rec,
    (ps.Find pid s).1 = Some l
    /\ ps.heap (ps.Find pid s).2 !! l = Some rec
    /\ pstypes.PID rec = pid.
Proof.
  intros Hk Hlive. unfold ps.Find.
  destruct (ps.procs s !! pid) as [l|] eqn:Hl.
  { destruct (Hk pid l Hl) as (rec & Hrec & HPID). by exists l, rec. }
  rewrite Hlive.
  pose proof (lookup_PID pid) as HPID.
  destruct (ps.lookup pid) as [[rec found] pebFailed]. simpl in HPID.
  set (s2 := if pebFailed then _ else _). simpl.
  exists (fresh (dom (ps.heap s2))), rec. split; [done|].
  destruct found; simpl; by rewrite lookup_insert_eq.
Qed.

(** X14.  In replay mode [Find] is the lookup in the index and changes
    nothing.  In live mode [Find] never returns nil: it returns a pointer to
    a record of the store that carries the PID asked for, and it neither
    removes nor changes an entry of the index or a record of the store. *)
Theorem Find_live_never_nil s pid :
  keyed s ->
  (ps.capture s = true -> ps.Find pid s = (ps.procs s !! pid, s))
  /\ (ps.capture s = false ->
      exists l rec,
        (ps.Find pid s).1 = Some l
        /\ ps.heap (ps.Find pid s).2 !! l = Some rec
        /\ pstypes.PID rec = pid)
  /\ ps.procs s ⊆ ps.procs (ps.Find pid s).2
  /\ ps.heap s ⊆ ps.heap (ps.Find pid s).2.
Proof.
  intros Hk. unfold ps.Find.
  destruct (ps.procs s !! pid) as [l|] eqn:Hl.
  { split; [done|]. split; [|done]. intros _.
    destruct (Hk pid l Hl) as (rec & Hrec & HPID). by exists l, rec. }
  destruct (ps.capture s); [by repeat split|].
  split; [done|].
  pose proof (lookup_PID pid) as HPID.
  destruct (ps.lookup pid) as [[rec found] pebFailed]. simpl in HPID.
  set (s2 := if pebFailed then _ else _).
  assert (ps.heap s2 = ps.heap s /\ ps.procs s2 = ps.procs s) as [Hh Hp].
  { subst s2. by destruct pebFailed. }
  simpl. rewrite Hh.
  set (l := fresh (dom (ps.heap s))).
  assert (ps.heap s !! l = None) as Hfresh by (apply not_elem_of_dom, is_fresh).
  split; [|split].
  - intros _. exists l, rec. split; [done|].
    destruct found; simpl; by rewrite lookup_insert_eq.
  - destruct found; simpl; rewrite Hp; [|done]. by apply insert_subseteq.
  - destruct found; simpl; by apply insert_subseteq.
Qed.

(** X15.  In live mode, for a PID the index does not have, [Find] counts a
    lookup failure and makes a new record each time; it puts the record
    into the index only when the whole lookup succeeded, and then the next
    [Find] returns the same pointer and changes nothing; after a lookup
    that stopped early the index is as before, so the next [Find] looks the
    process up again and returns another pointer. *)
Theorem Find_caches_complete_lookups_only s pid :
  ps.procs s !! pid = None ->
  ps.capture s = false ->
  let res := ps.Find pid s in
  ps.processLookupFailureCount res.2 !! pid
  = Some (Int_Add (default 0 (ps.processLookupFailureCount s !! pid)) 1)
  /\ ((ps.lookup pid).1.2 = true ->
      ps.procs res.2 !! pid = res.1 /\ ps.Find pid res.2 = (res.1, res.2))
  /\ ((ps.lookup pid).1.2 = false ->
      ps.procs res.2 = ps.procs s
      /\ is_Some (ps.Find pid res.2).1
      /\ (ps.Find pid res.2).1 <> res.1).
Proof.
  intros Hnone Hlive res. subst res.
  destruct (ps.Find pid s) as [r1 s1] eqn:HF.
  unfold ps.Find in HF. rewrite Hnone, Hlive in HF.
  destruct (ps.lookup pid) as [[rec found] pebFailed] eqn:Hlook.
  set (s2 := if pebFailed then _ else _) in HF.
  assert (ps.heap s2 = ps.heap s /\ ps.procs s2 = ps.procs s
          /\ ps.capture s2 = false
          /\ ps.processLookupFailureCount s2
             = <[pid := Int_Add (default 0 (ps.processLookupFailureCount s !! pid)) 1]>
                 (ps.processLookupFailureCount s)) as (Hh & Hp & Hc & Hf).
  { subst s2. by destruct pebFailed. }
  simpl in HF.
  set (l := fresh (dom (ps.heap s2))) in HF.
  injection HF as <- <-. simpl.
  split; [|split].
  - destruct found; simpl; by rewrite Hf, lookup_insert_eq.
  - intros ->. simpl. rewrite lookup_insert_eq. split; [done|].
    unfold ps.Find. simpl. by rewrite lookup_insert_eq.
  - intros ->. simpl. split; [done|].
    unfold ps.Find. simpl. rewrite Hp, Hnone, Hc, Hlook. simpl.
    split; [by eexists|].
    intros [= Heq].
    set (hp := <[l := rec]> (ps.heap s2)) in *.
    assert (hp !! l = Some rec) as Hin by (subst hp; by rewrite lookup_insert_eq).
    assert (ps.heap (if pebFailed
                     then ps.add_pebReadErrors 1 (ps.add_lookupFailure pid (ps.set_heap hp s2))
                     else ps.add_lookupFailure pid (ps.set_heap hp s2)) = hp) as Hhp
      by (by destruct pebFailed).
    rewrite Hhp in Heq.
    assert (hp !! fresh (dom hp) = None) as Hfresh by (apply not_elem_of_dom, is_fresh).
    rewrite Heq in Hfresh. congruence.
Qed.


(** X17.  [AddThread] counts the thread before it looks for the process,
    [RemoveThread] counts it down only when it finds the process: for a PID
    the index does not have, adding and then removing a thread leaves the
    thread counter one higher and everything else as it was.  For a PID the
    index has, the two change the record of that PID and nothing else. *)
Theorem AddThread_then_RemoveThread e s pid tid :
  GetPid (Kparams_ e) = Ok pid ->
  let s1 := (pssnap.AddThread e s).2 in
  let s2 := (pssnap.RemoveThread pid tid s1).2 in
  (pssnap.AddThread e s).1 = None
  /\ ps.procs s2 = ps.procs s
  /\ match ps.procs s !! pid with
     | None => s2 = ps.add_threadCount 1 s
     | Some proc =>
       ps.threadCount s2 = Int_Add (Int_Add (ps.threadCount s) 1) (-1)
       /\ ps.heap s2
          = alter (fun rec => pssnap.PS_RemoveThread tid
                                (ps.PS_AddThread (ps.threadOf e) rec))
              proc (ps.heap s)
     end.
Proof.
  intros Hpid. simpl. unfold pssnap.AddThread. rewrite Hpid. simpl.
  destruct (ps.procs s !! pid) as [proc|] eqn:Hl; simpl;
    unfold pssnap.RemoveThread; simpl; rewrite Hl; simpl.
  - repeat split. by rewrite alter_alter_eq.
  - done.
Qed.

(** X18.  The same for modules: [AddModule] counts before it looks for the
    process and [RemoveModule] counts down only when it finds it. *)
Theorem AddModule_then_RemoveModule e s pid module :
  GetPid (Kparams_ e) = Ok pid ->
  let s1 := (pssnap.AddModule e s).2 in
  let s2 := (pssnap.RemoveModule pid module s1).2 in
  (pssnap.AddModule e s).1 = None
  /\ ps.procs s2 = ps.procs s
  /\ match ps.procs s !! pid with
     | None => s2 = ps.add_moduleCount 1 s
     | Some proc =>
       ps.moduleCount s2 = Int_Add (Int_Add (ps.moduleCount s) 1) (-1)
       /\ ps.heap s2
          = alter (fun rec => pssnap.PS_RemoveModule module
                                (ps.PS_AddModule (ps.moduleOf e) rec))
              proc (ps.heap s)
     end.
Proof.
  intros Hpid. simpl. unfold pssnap.AddModule. rewrite Hpid. simpl.
  destruct (ps.procs s !! pid) as [proc|] eqn:Hl; simpl;
    unfold pssnap.RemoveModule; simpl; rewrite Hl; simpl.
  - repeat split. by rewrite alter_alter_eq.
  - done.
Qed.

(** X19.  On replay a thread event does to the snapshotter what
    [AddThread] does, and an image event what [AddModule] does; an event
    of a type other than the six that [WriteFromKcap] names leaves the
    snapshotter as it was. *)
Theorem WriteFromKcap_thread_and_image_events e s :
  match Typ e with
  | ktypes.CreateThread | ktypes.ThreadRundown =>
    ps.WriteFromKcap e s = Some (pssnap.AddThread e s)
  | ktypes.LoadImage | ktypes.ImageRundown =>
    ps.WriteFromKcap e s = Some (pssnap.AddModule e s)
  | ktypes.CreateProcess | ktypes.ProcessRundown => True
  | _ => ps.WriteFromKcap e s = Some (None, s)
  end.
Proof.
  unfold ps.WriteFromKcap, pssnap.AddThread, pssnap.AddModule.
  destruct (Typ e); try done;
    destruct (GetPid (Kparams_ e)) as [pid|err]; try done; simpl;
    by destruct (ps.procs s !! pid).
Qed.

(** X20.  The handle callbacks, each run without another operation between
    its read of the index and its write, never change the index, whatever
    the PID: the pointer they write back is the one they read.  After
    [onHandleCreated] and then [onHandleDestroyed] for the same PID only
    the record of that PID may differ, and for a PID the index does not
    have nothing was done. *)
Theorem handle_callbacks_keep_index pid hdl rawHandle s :
  let s1 := pssnap.onHandleCreated pid hdl s in
  let s2 := pssnap.onHandleDestroyed pid rawHandle s1 in
  ps.procs s1 = ps.procs s
  /\ ps.procs s2 = ps.procs s
  /\ match ps.procs s !! pid with
     | None => s2 = s
     | Some proc =>
       ps.heap s2
       = alter (fun rec => pssnap.PS_RemoveHandle rawHandle
                             (pssnap.PS_AddHandle hdl rec)) proc (ps.heap s)
     end.
Proof.
  simpl. unfold pssnap.onHandleCreated.
  destruct (ps.procs s !! pid) as [proc|] eqn:Hl.
  - unfold pssnap.onHandleDestroyed. simpl.
    rewrite lookup_insert_eq. simpl.
    rewrite insert_insert_eq, (insert_id _ _ _ Hl).
    repeat split. by rewrite alter_alter_eq.
  - unfold pssnap.onHandleDestroyed. by rewrite Hl.
Qed.

(** X21.  A tick of the reaper that follows another, with the operating
    system giving the same answers, removes nothing more and counts nothing
    more. *)
Theorem gcTick_idempotent s : ps.gcTick (ps.gcTick s) = ps.gcTick s.
Proof.
  assert (forall s0, ps.procs s0 = map_fold (fun pid _ acc => ps.reapOne pid acc)
                                     (ps.procs s) (ps.procs s) ->
                     ps.gcTick s0 = s0) as Hfix.
  { intros s0 Hp. unfold ps.gcTick.
    assert (map_fold (fun pid _ acc => ps.reapOne pid acc) (ps.procs s0) (ps.procs s0)
            = ps.procs s0) as ->.
    { apply map_eq. intros pid. rewrite reap_fold_lookup, Hp, reap_fold_lookup.
      by destruct (dead pid). }
    rewrite Nat.ltb_irrefl. by destruct s0. }
  apply Hfix. unfold ps.gcTick. by destruct (_ <? _)%nat.
Qed.

End snapshotter_more.

(** ** The process processor *)

Section psproc_more.
Context {C : Type} `{!psproc.Deps C} `{!ps.Deps}.
Implicit Types (s : ps.snapshotter) (e : Kevent).






(** X25.  An OpenProcess or OpenThread event whose PID parameter cannot
    be read comes back with the error and changes nothing.  Otherwise, in
    live mode over a keyed index, the processor always finds a record
    with the PID asked for and sets the Exe and ProcessName parameters of
    the event from it; the event is never handed to the next processor and
    no error is returned. *)
Theorem psproc_open_events e s :
  Typ e = ktypes.OpenProcess \/ Typ e = ktypes.OpenThread ->
  (forall err,
     GetPid (Kparams_ e) = Err err ->
     psproc.ProcessEvent e s
     = Some (processors.mkOutcome e e false (Some err), s))
  /\ (forall pid,
        GetPid (Kparams_ e) = Ok pid ->
        keyed s ->
        ps.capture s = false ->
        exists e1 l rec,
          psproc.ProcessEvent e s
          = Some (processors.mkOutcome e1 e1 false None, (ps.Find pid s).2)
          /\ (ps.Find pid s).1 = Some l
          /\ ps.heap (ps.Find pid s).2 !! l = Some rec
          /\ pstypes.PID rec = pid
          /\ Kparams_ e1
             = <[kparams.ProcessName :=
                   mkKparam kparams.AnsiString (VString (pstypes.Name rec))]>
                 (<[kparams.Exe :=
                      mkKparam kparams.FilePath (VString (pstypes.Exe rec))]>
                    (Kparams_ e))).
Proof.
  intros Hty. split.
  { intros err Hpid. unfold psproc.ProcessEvent.
    destruct Hty as [-> | ->]; by rewrite Hpid. }
  intros pid Hpid Hk Hlive.
  destruct (Find_live_record s pid Hk Hlive) as (l & rec & Hl & Hrec & HPID).
  assert (psproc.ProcessEvent e s
          = let '(proc, s1) := ps.Find pid s in
            match proc with
            | None => Some (processors.mkOutcome e e false None, s1)
            | Some l =>
              match ps.heap s1 !! l with
              | None => None
              | Some rec =>
                let e1 :=
                  AppendParam kparams.ProcessName kparams.AnsiString
                    (VString (pstypes.Name rec))
                    (AppendParam kparams.Exe kparams.FilePath
                       (VString (pstypes.Exe rec)) e) in
                Some (processors.mkOutcome e1 e1 false None, s1)
              end
            end) as ->.
  { unfold psproc.ProcessEvent. destruct Hty as [-> | ->]; by rewrite Hpid. }
  destruct (ps.Find pid s) as [r s1]. simpl in *. subst r. rewrite Hrec.
  eexists _, l, rec. split; [reflexivity|]. done.
Qed.

End psproc_more.

(** ** The trace consumer, further *)

Section consumer_more.
Context {W R : Type} `{!kstream.Deps W R}.
Implicit Types (k : kstream.kstreamConsumer W) (e : Kevent).

(** What [isEventDropped] has checked of an event it lets through. *)
Lemma isEventDropped_false e k k' :
  kstream.isEventDropped e k = (false, k') ->
  passes k (kstream.Channel, e)
  /\ kstream.capture k' = kstream.capture k
  /\ kstream.keventsEnqueued k' = kstream.keventsEnqueued k.
Proof.
  unfold kstream.isEventDropped, passes. simpl.
  destruct (kstream.IsState e && negb (kstream.capture k)) eqn:Hst; [done|].
  assert (kstream.IsState e = true -> kstream.capture k = true) as Hcap.
  { intros Hs. rewrite Hs in Hst. by destruct (kstream.capture k). }
  unfold kstream.CurrentPid.
  destruct (kstream.IsRundown e).
  - destruct (kstream.IsRundownProcessed e (kstream.world k)) as [processed w].
    destruct processed; [done|].
    destruct (PID e =? kstream.currentPid) eqn:Hpid; [done|].
    apply Z.eqb_neq in Hpid.
    destruct (kstream.ExcludeKevent e); [done|]. simpl.
    destruct (kstream.filter k); intros ?; by simplify_eq.
  - destruct (PID e =? kstream.currentPid) eqn:Hpid; [done|].
    apply Z.eqb_neq in Hpid.
    destruct (kstream.ExcludeKevent e); [done|].
    destruct (kstream.filter k); intros ?; by simplify_eq.
Qed.

Lemma isEventDropped_true e k k' :
  kstream.isEventDropped e k = (true, k') ->
  kstream.capture k' = kstream.capture k
  /\ kstream.keventsEnqueued k' = kstream.keventsEnqueued k.
Proof.
  unfold kstream.isEventDropped.
  destruct (kstream.IsState e && negb (kstream.capture k)); [by intros [= <-]|].
  destruct (kstream.IsRundown e).
  - destruct (kstream.IsRundownProcessed e (kstream.world k)) as [processed w].
    destruct processed; [by intros [= <-]|].
    destruct (kstream.CurrentPid e); [by intros [= <-]|].
    destruct (kstream.ExcludeKevent e); [by intros [= <-]|]. simpl.
    destruct (kstream.filter k); intros ?; by simplify_eq.
  - destruct (kstream.CurrentPid e); [by intros [= <-]|].
    destruct (kstream.ExcludeKevent e); [by intros [= <-]|].
    destruct (kstream.filter k); intros ?; by simplify_eq.
Qed.

Lemma accounted_refl k k' :
  kstream.delivered k' = kstream.delivered k ->
  kstream.sequencer k' = kstream.sequencer k ->
  kstream.keventsEnqueued k' = kstream.keventsEnqueued k ->
  kstream.capture k' = kstream.capture k ->
  accounted k k' [].
Proof.
  intros Hd Hs He Hc. unfold accounted. rewrite app_nil_r. by repeat split.
Qed.

Lemma accounted_trans k1 k2 k3 ds1 ds2 :
  accounted k1 k2 ds1 -> accounted k2 k3 ds2 -> accounted k1 k3 (ds1 ++ ds2).
Proof.
  intros (Hd1 & Hp1 & Hs1 & He1 & Hc1) (Hd2 & Hp2 & Hs2 & He2 & Hc2).
  unfold accounted. split; [|split; [|split; [|split]]].
  - by rewrite Hd2, Hd1, app_assoc.
  - apply Forall_app. split; [done|].
    eapply Forall_impl; [exact Hp2|]. intros d (H1 & H2 & H3).
    repeat split; try done. intros Hst. rewrite <- Hc1. by apply H3.
  - rewrite Hs2, Hs1. unfold numbered, sequencer_after.
    rewrite filter_app, length_app, (Nat.add_comm (length _)).
    by rewrite Nat.iter_add.
  - rewrite He2, He1. unfold sent, counter_after.
    rewrite omap_app, length_app, (Nat.add_comm (length _)).
    by rewrite Nat.iter_add.
  - by rewrite Hc2.
Qed.

Lemma publishEvent_accounted e k :
  exists ds, accounted k (kstream.publishEvent e k).2 ds.
Proof.
  unfold kstream.publishEvent.
  destruct (kstream.psnapshotter_Find (PID e) (kstream.world k)) as [proc w].
  simpl. destruct (kstream.ExcludeImage proc w).
  { exists []. by apply accounted_refl. }
  set (e1 := match PS e with Some _ => e | None => set_PS proc e end).
  pose proof (isEventDropped_fields e1 (kstream.set_world w k)) as Hf.
  destruct (kstream.isEventDropped e1 (kstream.set_world w k)) as [dropped k1] eqn:Hd.
  simpl in Hf. destruct Hf as (Hdel & Hsq & Hcb).
  destruct dropped; simpl.
  { apply isEventDropped_true in Hd as [Hc He]. exists []. by apply accounted_refl. }
  apply isEventDropped_false in Hd as ((Hpid & Hex & Hst) & Hc & He).
  simpl in *.
  set (k2 := if negb (kstream.IsState e1) then _ else k1).
  assert (kstream.delivered k2 = kstream.delivered k
          /\ kstream.eventCallback k2 = kstream.eventCallback k1
          /\ kstream.keventsEnqueued k2 = kstream.keventsEnqueued k
          /\ kstream.capture k2 = kstream.capture k
          /\ kstream.sequencer k2
             = sequencer_after
                 (length (numbered [(kstream.Channel, e1)])) (kstream.sequencer k)
          /\ kstream.sequencer k2
             = sequencer_after
                 (length (numbered [(kstream.Callback, e1)])) (kstream.sequencer k))
    as (Hdel2 & Hcb2 & He2 & Hc2 & Hsq2 & Hsq2').
  { subst k2. unfold numbered. rewrite !filter_cons, !filter_nil. simpl.
    destruct (kstream.IsState e1) eqn:Hs; simpl; rewrite ?Hsq; by repeat split. }
  destruct (kstream.eventCallback k2) as [f|]; simpl.
  - exists [(kstream.Callback, e1)]. unfold accounted. simpl.
    rewrite Hdel2. split; [done|]. split; [by repeat constructor|]. by split.
  - exists [(kstream.Channel, e1)]. unfold accounted. simpl.
    rewrite Hdel2, He2. split; [done|]. split; [by repeat constructor|]. by split.
Qed.

Lemma step_accounted op k : exists ds, accounted k (kstream.step k op) ds.
Proof.
  destruct op as [evt|n|f|f]; simpl;
    try (exists []; by apply accounted_refl).
  unfold kstream.processEventCallback, kstream.processEvent, kstream.New.
  destruct (kstream.decode evt) as [e0|]; simpl;
    [|exists []; by apply accounted_refl].
  destruct (kstream.processors_ProcessEvent _ _) as [[evts err] w].
  destruct err as [err|].
  { destruct (IsCancelUpstreamKevent err); simpl;
      exists []; by apply accounted_refl. }
  destruct evts as [out|]; simpl; [|exists []; by apply accounted_refl].
  destruct (publishEvent_accounted out (kstream.set_world w k)) as [ds Hds].
  exists ds.
  destruct (kstream.publishEvent out (kstream.set_world w k)) as [[err|] k1];
    simpl in *; exact Hds.
Qed.

Lemma run_accounted ops : forall k, exists ds, accounted k (kstream.run ops k) ds.
Proof.
  induction ops as [|op ops IH]; intros k.
  - exists []. by apply accounted_refl.
  - unfold kstream.run. simpl.
    destruct (step_accounted op k) as [ds1 H1].
    destruct (IH (kstream.step k op)) as [ds2 H2].
    exists (ds1 ++ ds2). by eapply accounted_trans.
Qed.

(** X26.  Whatever the consumer is handed during a run, every event it
    delivers, on the channel or to the callback, has passed the drop
    rules: it is not of the agent's own process, its type is not excluded,
    and it is a state event only when the consumer captures; what was
    delivered before the run stays in front, in its order. *)
Theorem run_delivers_only_what_passes (ops : list (kstream.Op W R)) k :
  exists ds,
    kstream.delivered (kstream.run ops k) = kstream.delivered k ++ ds
    /\ Forall (passes k) ds.
Proof.
  destruct (run_accounted ops k) as (ds & Hd & Hp & _). by exists ds.
Qed.

(** X27.  During a run the sequencer advances once for each delivered
    event that is not a state event, and the counter of enqueued events
    once for each event sent on the channel; an event that is dropped,
    excluded, cancelled or failed, and an event handed to the callback,
    are not counted as enqueued, and only a delivered event takes a
    sequence number. *)
Theorem run_sequencer_and_enqueued (ops : list (kstream.Op W R)) k :
  exists ds,
    kstream.delivered (kstream.run ops k) = kstream.delivered k ++ ds
    /\ kstream.sequencer (kstream.run ops k)
       = sequencer_after (length (numbered ds)) (kstream.sequencer k)
    /\ kstream.keventsEnqueued (kstream.run ops k)
       = counter_after (length (sent ds)) (kstream.keventsEnqueued k)
    /\ kstream.Events (kstream.run ops k) = kstream.Events k ++ sent ds.
Proof.
  destruct (run_accounted ops k) as (ds & Hd & _ & Hs & He & _).
  exists ds. repeat split; try done.
  unfold kstream.Events, sent. by rewrite Hd, omap_app.
Qed.

Lemma isEventDropped_errs e k :
  let k' := (kstream.isEventDropped e k).2 in
  kstream.errs k' = kstream.errs k
  /\ kstream.failedKevents k' = kstream.failedKevents k
  /\ kstream.upstreamCancellations k' = kstream.upstreamCancellations k.
Proof.
  simpl. unfold kstream.isEventDropped.
  destruct (kstream.IsState e && negb (kstream.capture k)); [done|].
  destruct (kstream.IsRundown e).
  - destruct (kstream.IsRundownProcessed e (kstream.world k)) as [processed w].
    destruct processed; [done|].
    destruct (kstream.CurrentPid e); [done|].
    destruct (kstream.ExcludeKevent e); [done|].
    simpl. by destruct (kstream.filter k).
  - destruct (kstream.CurrentPid e); [done|].
    destruct (kstream.ExcludeKevent e); [done|].
    by destruct (kstream.filter k).
Qed.

(** [publishEvent] pushes no error itself; the error it returns is the
    one the callback returned for the event it was handed. *)
Lemma publishEvent_errs e k :
  let k' := (kstream.publishEvent e k).2 in
  kstream.errs k' = kstream.errs k
  /\ kstream.failedKevents k' = kstream.failedKevents k
  /\ kstream.upstreamCancellations k' = kstream.upstreamCancellations k
  /\ forall err,
       (kstream.publishEvent e k).1 = Some err ->
       exists f e1,
         kstream.eventCallback k = Some f
         /\ f e1 = Some err
         /\ kstream.delivered k' = kstream.delivered k ++ [(kstream.Callback, e1)].
Proof.
  simpl. unfold kstream.publishEvent.
  destruct (kstream.psnapshotter_Find (PID e) (kstream.world k)) as [proc w].
  simpl. destruct (kstream.ExcludeImage proc w); [done|].
  set (e1 := match PS e with Some _ => e | None => set_PS proc e end).
  pose proof (isEventDropped_fields e1 (kstream.set_world w k)) as Hf.
  pose proof (isEventDropped_errs e1 (kstream.set_world w k)) as Hg.
  destruct (kstream.isEventDropped e1 (kstream.set_world w k)) as [dropped k1].
  simpl in Hf, Hg. destruct Hf as (Hdel & Hsq & Hcb). destruct Hg as (He & Hfk & Hu).
  destruct dropped; simpl; [done|].
  set (k2 := if negb (kstream.IsState e1) then _ else k1).
  assert (kstream.delivered k2 = kstream.delivered k
          /\ kstream.eventCallback k2 = kstream.eventCallback k
          /\ kstream.errs k2 = kstream.errs k
          /\ kstream.failedKevents k2 = kstream.failedKevents k
          /\ kstream.upstreamCancellations k2 = kstream.upstreamCancellations k)
    as (Hdel2 & Hcb2 & He2 & Hfk2 & Hu2).
  { subst k2. by destruct (kstream.IsState e1). }
  destruct (kstream.eventCallback k2) as [f|] eqn:Hf; simpl; [|done].
  repeat split; try done. intros err Herr. exists f, e1. by rewrite Hdel2, <- Hcb2.
Qed.

End consumer_more.

(** ** The trace consumer over the processor chain *)

Section consumer_chain.
Context {W0 R : Type} `{!kstream.Deps (processors.Env W0) R}.
Variable c : processors.chain W0.
Hypothesis processors_is_chain :
  forall e w, kstream.processors_ProcessEvent e w = processors.chain_ProcessEvent c e w.

(** X28.  The consumer whose processors are the chain.  A record adds at
    most one error to the error channel, and kstream.kevents.failures
    counts the same errors.  An error that comes from the chain is the
    multierror of the failures of its processors, none of them the
    cancel-upstream sentinel, and the event is then not delivered and
    takes no sequence number, whatever the later processors returned; the
    only other error is the one the event callback returned for an event
    that was delivered to it. *)
Theorem processEventCallback_errors evt (k : kstream.kstreamConsumer (processors.Env W0)) :
  let k' := kstream.processEventCallback evt k in
  (kstream.errs k' = kstream.errs k
   /\ kstream.failedKevents k' = kstream.failedKevents k)
  \/ (exists es,
        es <> [] /\ Forall reported es
        /\ kstream.errs k' = kstream.errs k ++ [ErrMulti es]
        /\ kstream.failedKevents k' = kstream.failedKevents k ++ [ErrMulti es]
        /\ kstream.delivered k' = kstream.delivered k
        /\ kstream.sequencer k' = kstream.sequencer k
        /\ kstream.upstreamCancellations k' = kstream.upstreamCancellations k)
  \/ (exists f e err,
        kstream.eventCallback k = Some f
        /\ f e = Some err
        /\ kstream.errs k' = kstream.errs k ++ [err]
        /\ kstream.failedKevents k' = kstream.failedKevents k ++ [err]
        /\ kstream.delivered k' = kstream.delivered k ++ [(kstream.Callback, e)]).
Proof.
  simpl. unfold kstream.processEventCallback, kstream.processEvent, kstream.New.
  destruct (kstream.decode evt) as [e0|]; simpl; [|by left].
  rewrite processors_is_chain. unfold processors.chain_ProcessEvent.
  destruct (walk_shape (processors.chain_processors c)
              (set_Seq (kstream.sequencer k) e0) None [] (kstream.world k))
    as (es & Hrep & _ & _ & Herr).
  destruct (processors.walk _ _ _ _ _) as [[evts err] w]. simpl in Herr.
  destruct err as [err|].
  - destruct Herr as [Herr|Herr].
    + destruct es as [|e1 es]; [done|]. injection Herr as ->. simpl.
      right. left. by exists (e1 :: es).
    + injection Herr as ->. simpl. by left.
  - destruct evts as [out|]; simpl; [|by left].
    pose proof (publishEvent_errs out (kstream.set_world w k)) as Hp.
    destruct (kstream.publishEvent out (kstream.set_world w k)) as [[err|] k1];
      simpl in Hp; destruct Hp as (He & Hfk & Hu & Hcb); simpl.
    + right. right. destruct (Hcb err eq_refl) as (f & e1 & Hf & Hfe & Hd).
      exists f, e1, err. rewrite He, Hfk. done.
    + by left.
Qed.

End consumer_chain.

(** ** The further properties on the scenarios *)

(** The table that holds the CreateHandle of scenario 3 is in order, and so
    is the table after the CloseHandle, which has nothing the table before
    did not have. *)
Lemma processEvent_keeps_pending_ok_witness :
  pending_ok (scenario.handleProcessor1 true)
  /\ pending_ok
       (@processors.processEvent bool scenario.handleDeps scenario.closeHandle
          (scenario.handleProcessor1 true)).2
  /\ processors.objects
       (@processors.processEvent bool scenario.handleDeps scenario.closeHandle
          (scenario.handleProcessor1 true)).2
     ⊆ processors.objects (scenario.handleProcessor1 true).
Proof.
  destruct (@processEvent_keeps_pending_ok bool scenario.handleDeps
              scenario.createHandle (scenario.handleProcessor0 true)
              (pending_ok_empty true 0))
    as (Hheld & _ & _).
  destruct (@processEvent_keeps_pending_ok bool scenario.handleDeps
              scenario.closeHandle (scenario.handleProcessor1 true) Hheld)
    as (Hok & _ & Hsub).
  split; [exact Hheld|]. split; [exact Hok|]. apply Hsub. discriminate.
Defined.

(** A handle event without parameters comes back as it was, with an error,
    and the processor is as before. *)
Lemma handle_ProcessEvent_missing_parameter_witness :
  exists err,
    @processors.handle_ProcessEvent bool scenario.handleDeps examples.bareHandle
      (scenario.handleProcessor0 true)
    = (processors.mkOutcome examples.bareHandle examples.bareHandle false (Some err),
       scenario.handleProcessor0 true).
Proof.
  apply (@handle_ProcessEvent_missing_parameter bool scenario.handleDeps
           examples.bareHandle (scenario.handleProcessor0 true) eq_refl).
  left. intros v. vm_compute. discriminate.
Defined.

(** The CloseHandle of scenario 3 when no CreateHandle is held: what the
    removal from the handle snapshotter returns is returned, and nothing is
    counted. *)
Lemma processEvent_unpaired_witness :
  (@processors.processEvent bool scenario.handleDeps scenario.closeHandle
     (scenario.handleProcessor0 true)).1.2 = None
  /\ processors.objects
       (@processors.processEvent bool scenario.handleDeps scenario.closeHandle
          (scenario.handleProcessor0 true)).2 = ∅
  /\ processors.handleDeferMatches
       (@processors.processEvent bool scenario.handleDeps scenario.closeHandle
          (scenario.handleProcessor0 true)).2 = 0.
Proof.
  destruct (@processEvent_unpaired bool scenario.handleDeps scenario.closeHandle
              (scenario.handleProcessor0 true) _ _ eq_refl)
    as (_ & _ & Herr & Hobj & Hcnt).
  { right. split; [discriminate|reflexivity]. }
  split; [|split].
  - rewrite Herr. reflexivity.
  - exact Hobj.
  - exact Hcnt.
Defined.

(** The CreateHandle of scenario 3 a second time: it is withheld again, and
    the table still holds one event. *)
Lemma processEvent_replaces_pending_witness :
  (@processors.processEvent bool scenario.handleDeps scenario.createHandle
     (scenario.handleProcessor1 true)).1.2 = Some ErrCancelUpstreamKevent
  /\ size (processors.objects
             (@processors.processEvent bool scenario.handleDeps scenario.createHandle
                (scenario.handleProcessor1 true)).2) = 1%nat.
Proof.
  destruct (@processEvent_replaces_pending bool scenario.handleDeps
              scenario.createHandle (scenario.handleProcessor1 true) _ _ _
              eq_refl eq_refl eq_refl eq_refl)
    as (_ & Herr & _ & Hsize & _).
  split; [exact Herr|]. rewrite Hsize. reflexivity.
Defined.

(** The worker is alive and answers: two calls are made, and the name the
    worker has left is returned. *)
Lemma GetHandleWithTimeout_reuses_worker_witness :
  @handle.GetHandleWithTimeout bool examples.workerOS 99 1000 (examples.resolver1 true)
  = ("\Device\HarddiskVolume1\pagefile.sys"%string, None,
     handle.mkState 7 (Some 99) 1 2 0 true
       [handle.SetEvent 1; handle.WaitForSingleObject 2 1000]).
Proof.
  apply (@GetHandleWithTimeout_reuses_worker bool examples.workerOS 99 1000
           (examples.resolver1 true) _ _ _ _
           ltac:(discriminate) eq_refl eq_refl eq_refl eq_refl).
Defined.

(** The wait fails with an error that is not the timeout: the empty name
    comes back without an error and no timeout is counted. *)
Lemma GetHandleWithTimeout_other_wait_result_witness :
  @handle.os bool examples.workerOS (handle.WaitForSingleObject 2 1000) false
  = (handle.mkRet 0xFFFFFFFF (Some (Errno 6)), false)
  /\ (@handle.GetHandleWithTimeout bool examples.workerOS 99 1000
        (examples.resolver1 false)).1
     = (""%string, None)
  /\ handle.waitTimeoutCounts
       (@handle.GetHandleWithTimeout bool examples.workerOS 99 1000
          (examples.resolver1 false)).2
     = 0.
Proof.
  destruct (@GetHandleWithTimeout_other_wait_result bool examples.workerOS 99 1000
              (examples.resolver1 false) _ _ _
              eq_refl eq_refl ltac:(discriminate) eq_refl)
    as [Heq Hcnt].
  split; [reflexivity|]. rewrite Heq. split; reflexivity.
Defined.

(** When handles cannot be closed the handle of the thread is not tried;
    when they can, all three are closed. *)
Lemma CloseTimeout_closes_witness :
  (@resolver.CloseTimeout bool examples.workerOS (examples.resolver1 false)).1
  = Some (Errno 6)
  /\ handle.calls
       (@resolver.CloseTimeout bool examples.workerOS (examples.resolver1 false)).2
     = [handle.CloseHandle 1; handle.CloseHandle 2]
  /\ handle.calls
       (@resolver.CloseTimeout bool examples.workerOS (examples.resolver1 true)).2
     = [handle.CloseHandle 1; handle.CloseHandle 2; handle.CloseHandle 7].
Proof.
  destruct (@CloseTimeout_closes bool examples.workerOS (examples.resolver1 false)
              _ _ _ _ eq_refl eq_refl)
    as [Hfail _].
  destruct (Hfail ltac:(discriminate)) as [Herr Hcalls].
  destruct (@CloseTimeout_closes bool examples.workerOS (examples.resolver1 true)
              _ _ _ _ eq_refl eq_refl)
    as [_ Hwell].
  destruct (Hwell eq_refl) as [_ Hcalls'].
  split; [exact Herr|]. split; [exact Hcalls|exact Hcalls'].
Defined.

(** A check of [keyed] by running over the index. *)
Lemma keyed_checked (s : ps.snapshotter) :
  forallb (fun kv => match ps.heap s !! kv.2 with
                     | Some rec => pstypes.PID rec =? kv.1
                     | None => false
                     end) (map_to_list (ps.procs s)) = true ->
  keyed s.
Proof.
  intros Hall pid l Hl. rewrite forallb_forall in Hall.
  specialize (Hall (pid, l)). simpl in Hall.
  destruct (ps.heap s !! l) as [rec|].
  - exists rec. split; [done|]. apply Z.eqb_eq, Hall.
    apply list_elem_of_In. by apply elem_of_map_to_list.
  - discriminate Hall. apply list_elem_of_In. by apply elem_of_map_to_list.
Qed.

Lemma scenario_snapshot_keyed capture : keyed (scenario.snapshot capture).
Proof. apply keyed_checked. by destruct capture; vm_compute. Qed.

(** The index of the scenarios is keyed, and stays so after a [Write], a
    tick of the reaper and a [Find] of a PID it does not have. *)
Lemma live_operations_keep_keyed_witness :
  keyed (scenario.snapshot false)
  /\ keyed
       (@ps.Write scenario.psDeps
          (scenario.processEvent ktypes.CreateProcess 4 300 4 "notepad.exe" None)
          (scenario.snapshot false)).2
  /\ keyed (@ps.gcTick scenario.psDeps (scenario.snapshot false))
  /\ keyed (@ps.Find scenario.psDeps 300 (scenario.snapshot false)).2.
Proof.
  destruct (@live_operations_keep_keyed scenario.psDeps (scenario.snapshot false)
              (scenario.processEvent ktypes.CreateProcess 4 300 4 "notepad.exe" None)
              300 (scenario_snapshot_keyed false))
    as (Hwrite & _ & Htick & Hfind).
  split; [apply scenario_snapshot_keyed|]. by split.
Defined.

(** In live mode [Find] of the PID 300, which the index does not have,
    returns a record with that PID. *)
Lemma Find_live_never_nil_witness :
  ps.procs (scenario.snapshot false) !! 300 = None
  /\ exists l rec,
       (@ps.Find scenario.psDeps 300 (scenario.snapshot false)).1 = Some l
       /\ ps.heap (@ps.Find scenario.psDeps 300 (scenario.snapshot false)).2 !! l
          = Some rec
       /\ pstypes.PID rec = 300.
Proof.
  destruct (@Find_live_never_nil scenario.psDeps (scenario.snapshot false) 300
              (scenario_snapshot_keyed false))
    as (_ & Hlive & _).
  split; [reflexivity|]. exact (Hlive eq_refl).
Defined.

(** The lookup of process 300 stops at the PE data: the index stays as it
    was, one failure is counted, and a second [Find] returns another
    pointer. *)
Lemma Find_caches_complete_lookups_only_witness :
  (@ps.lookup scenario.psDeps 300).1.2 = false
  /\ ps.procs (@ps.Find scenario.psDeps 300 (scenario.snapshot false)).2
     = ps.procs (scenario.snapshot false)
  /\ (@ps.Find scenario.psDeps 300
        (@ps.Find scenario.psDeps 300 (scenario.snapshot false)).2).1
     <> (@ps.Find scenario.psDeps 300 (scenario.snapshot false)).1
  /\ ps.processLookupFailureCount
       (@ps.Find scenario.psDeps 300 (scenario.snapshot false)).2 !! 300
     = Some 1.
Proof.
  destruct (@Find_caches_complete_lookups_only scenario.psDeps
              (scenario.snapshot false) 300 eq_refl eq_refl)
    as (Hcount & _ & Hpartial).
  destruct (Hpartial eq_refl) as (Hprocs & _ & Hne).
  split; [reflexivity|]. split; [exact Hprocs|]. split; [exact Hne|].
  rewrite Hcount. reflexivity.
Defined.

(** A thread of the process 300, which the index does not have, is added
    and removed: the thread counter is left one higher. *)
Lemma AddThread_then_RemoveThread_witness :
  ps.procs (scenario.snapshot false) !! 300 = None
  /\ (@pssnap.RemoveThread examples.recordOps 300 9
        (@pssnap.AddThread scenario.psDeps
           (examples.threadEvent ktypes.CreateThread 300 9)
           (scenario.snapshot false)).2).2
     = ps.add_threadCount 1 (scenario.snapshot false).
Proof.
  destruct (@AddThread_then_RemoveThread scenario.psDeps examples.recordOps
              (examples.threadEvent ktypes.CreateThread 300 9)
              (scenario.snapshot false) 300 9 eq_refl)
    as (_ & _ & Hdrift).
  split; [reflexivity|]. exact Hdrift.
Defined.

(** A module of the process 200 is added and removed: the counter of
    modules is back at zero and the record is as it was. *)
Lemma AddModule_then_RemoveModule_witness :
  ps.procs (scenario.snapshot false) !! 200 = Some 2%positive
  /\ ps.moduleCount
       (@pssnap.RemoveModule examples.recordOps 200 "ntdll.dll"
          (@pssnap.AddModule scenario.psDeps
             (examples.imageEvent ktypes.LoadImage 200 "ntdll.dll")
             (scenario.snapshot false)).2).2
     = 0
  /\ ps.heap
       (@pssnap.RemoveModule examples.recordOps 200 "ntdll.dll"
          (@pssnap.AddModule scenario.psDeps
             (examples.imageEvent ktypes.LoadImage 200 "ntdll.dll")
             (scenario.snapshot false)).2).2 !! 2%positive
     = Some (scenario.proc 200 4 "svchost.exe" (Some 1%positive)).
Proof.
  destruct (@AddModule_then_RemoveModule scenario.psDeps examples.recordOps
              (examples.imageEvent ktypes.LoadImage 200 "ntdll.dll")
              (scenario.snapshot false) 200 "ntdll.dll" eq_refl)
    as (_ & _ & Hcount & Hheap).
  split; [reflexivity|]. split.
  - rewrite Hcount. reflexivity.
  - rewrite Hheap. by vm_compute.
Defined.



(** An OpenProcess of process 200 gets the executable of the record of
    process 200 as its Exe parameter. *)
Lemma psproc_open_events_witness :
  exists e1 s1,
    @psproc.ProcessEvent string examples.psprocDeps scenario.psDeps
      (scenario.processEvent ktypes.OpenProcess 4 200 4 "svchost.exe" None)
      (scenario.snapshot false)
    = Some (processors.mkOutcome e1 e1 false None, s1)
    /\ Kparams_ e1 !! kparams.Exe
       = Some (mkKparam kparams.FilePath (VString "svchost.exe")).
Proof.
  destruct (@psproc_open_events string examples.psprocDeps scenario.psDeps
              (scenario.processEvent ktypes.OpenProcess 4 200 4 "svchost.exe" None)
              (scenario.snapshot false) (or_introl eq_refl))
    as [_ Hopen].
  destruct (Hopen 200 eq_refl (scenario_snapshot_keyed false) eq_refl)
    as (e1 & l & rec & Heq & Hl & Hrec & _ & Hpars).
  exists e1, (@ps.Find scenario.psDeps 200 (scenario.snapshot false)).2.
  split; [exact Heq|].
  rewrite Hpars, lookup_insert_ne, lookup_insert_eq by done.
  assert (l = 2%positive) as -> by (by injection Hl).
  assert (rec = scenario.proc 200 4 "svchost.exe" (Some 1%positive)) as ->
    by (by injection Hrec).
  reflexivity.
Defined.

(** A handle event without parameters through the consumer over the handle
    processor: one multierror reaches the error channel and nothing is
    delivered. *)
Lemma processEventCallback_errors_witness :
  exists es,
    es <> [] /\ Forall reported es
    /\ kstream.errs
         (@kstream.processEventCallback _ _ scenario.handleConsumerDeps
            examples.bareHandle scenario.handleConsumer0)
       = [ErrMulti es]
    /\ kstream.delivered
         (@kstream.processEventCallback _ _ scenario.handleConsumerDeps
            examples.bareHandle scenario.handleConsumer0)
       = [].
Proof.
  destruct (@processEventCallback_errors _ _ scenario.handleConsumerDeps
              scenario.handleChain (fun e w => eq_refl)
              examples.bareHandle scenario.handleConsumer0)
    as [[Hsame _]|[(es & Hne & Hrep & Herrs & _ & Hdel & _)|(f & e & err & Hcb & _)]].
  - discriminate Hsame.
  - exists es. by repeat split.
  - discriminate Hcb.
Defined.
